(** * The typing input command ([typing/inputcommand])

    A shallow embedding of [InputCommand] from
    [packages/ckeditor5-typing/src/inputcommand.js]: its constructor,
    [destroy], the [buffer] accessor and [_doExecute].

    The command talks to collaborators that live in other modules: the
    document model (documents, batches, positions, ranges, selections),
    the change buffer and the base command.  They are modelled at their
    interface, and every call they receive is recorded in a trace, so
    that both the effect of the command and the calls it issues can be
    stated. *)

From Stdlib Require Import ZArith Ascii.
From Stdlib Require String.
From stdpp Require Import base tactics option list functions relations.
Import String.StringSyntax.

(** ** Positions, ranges and selections *)

(** A text is a sequence of input units; [length] is JavaScript's
    [text.length]. *)
Definition Text := list ascii.

(** Modelled from the spec: a position of the document model, which is not
    part of this package.  "A location within the document ...; supports
    deriving a new position shifted forward by N input units."  The
    structural model being out of scope, a location is an offset into the
    sequence of input units of the document. *)
Record Position := { offset : nat }.

(** [position.getShiftedBy( shift )] *)
Definition getShiftedBy (p : Position) (shift : nat) : Position :=
  {| offset := offset p + shift |}.

(** Modelled from the spec: a range of the document model, "an ordered
    pair of positions in the document; may be collapsed (zero-width) or
    span content.  Immutable value." *)
Record Range := { start : Position; end_ : Position }.

#[global] Instance Position_eq_dec : EqDecision Position.
Proof. solve_decision. Defined.

#[global] Instance Range_eq_dec : EqDecision Range.
Proof. solve_decision. Defined.

(** [range.isCollapsed] *)
Definition isCollapsed (r : Range) : bool :=
  bool_decide (start r = end_ r).

(** Modelled from the spec: a selection, which "exposes [collapse(position)]"
    and has a "first range" accessor.  It is represented by its ranges, in
    the order in which that accessor ranks them; [getFirstRange] answers
    [None] (JavaScript's [null]) for a selection without ranges. *)
Record Selection := { ranges : list Range }.

Definition getFirstRange (s : Selection) : option Range := head (ranges s).

Definition collapse (p : Position) (_ : Selection) : Selection :=
  {| ranges := [ {| start := p; end_ := p |} ] |}.

(** ** Documents and batches *)

(** The two structural operations a batch can record. *)
Inductive Operation :=
  | OpRemove (r : Range)
  | OpInsert (p : Position) (t : Text).

(** Modelled from the spec: the document, "the mutable structured content
    ...; exposes atomic transaction scoping and a current selection".
    [notified] lists the contents that observers were shown, one entry per
    change event, oldest first. *)
Record Document := {
  content : Text;
  selection : Selection;
  notified : list Text
}.

(** Objects are referred to by identity: several references can name one
    document. *)
Definition DocId := nat.

(** Modelled from the spec: a batch, "an opaque handle representing one
    undoable transaction".  A batch belongs to the document that produced
    it. *)
Record Batch := { batchDocument : DocId; batchId : nat }.

#[global] Instance Batch_eq_dec : EqDecision Batch.
Proof. solve_decision. Defined.

(** Modelled from the spec: what the document model accepts.  A position
    is valid when it lies within the content, a range when its positions
    are in order and within the content ("must be a valid range within
    the current document snapshot"). *)
Definition validPosition (p : Position) (c : Text) : bool :=
  bool_decide (offset p ≤ length c).

Definition validRange (r : Range) (c : Text) : bool :=
  bool_decide (offset (start r) ≤ offset (end_ r) ∧ offset (end_ r) ≤ length c).

(** ** The change buffer *)

(** Modelled from the spec: the state of [ChangeBuffer] ([./changebuffer],
    not part of the sources at hand), "[{ currentBatch, unitsSinceSplit,
    splitThreshold }]", together with the document it was created for. *)
Record ChangeBuffer := {
  bufferDocument : DocId;
  currentBatch : Batch;
  unitsSinceSplit : Z;
  splitThreshold : Z
}.

(** Modelled from the spec: [new ChangeBuffer( document, limit )] opens a
    first batch; [fresh] is the next unused batch identity. *)
Definition ChangeBuffer_new (d : DocId) (limit : Z) (fresh : nat)
  : ChangeBuffer * nat :=
  ({| bufferDocument := d;
      currentBatch := {| batchDocument := d; batchId := fresh |};
      unitsSinceSplit := 0;
      splitThreshold := limit |}, S fresh).

(** Modelled from the spec: [ChangeBuffer.input(n)].  "Add [n] to
    [unitsSinceSplit].  If the new [unitsSinceSplit] ≥ [splitThreshold],
    transition to a fresh Open(newBatch, 0)." *)
Definition ChangeBuffer_input (n : Z) (b : ChangeBuffer) (fresh : nat)
  : ChangeBuffer * nat :=
  let units := (unitsSinceSplit b + n)%Z in
  if (splitThreshold b <=? units)%Z then
    ({| bufferDocument := bufferDocument b;
        currentBatch := {| batchDocument := bufferDocument b; batchId := fresh |};
        unitsSinceSplit := 0;
        splitThreshold := splitThreshold b |}, S fresh)
  else
    ({| bufferDocument := bufferDocument b;
        currentBatch := currentBatch b;
        unitsSinceSplit := units;
        splitThreshold := splitThreshold b |}, fresh).

(** ** The editor, the command and the calls it issues *)

(** [editor.document] and [editor.data.model] are two references; they
    may or may not name the same document. *)
Record Editor := { document : DocId; data_model : DocId }.

(** The options object of [execute]; an absent key is [None]. *)
Record Options := {
  text : option Text;
  range : option Range;
  resultPosition : option Position
}.

(** [{}] *)
Definition emptyOptions : Options :=
  {| text := None; range := None; resultPosition := None |}.

(** Calls received by the collaborators. *)
Inductive Call :=
  | CGetFirstRange (d : DocId)
  | CEnqueueEnter (d : DocId)
  | CEnqueueExit (d : DocId)
  | CRemove (b : Batch) (r : Range)
  | CWeakInsert (b : Batch) (p : Position) (t : Text)
  | CCollapse (d : DocId) (p : Position)
  | CInput (n : Z)
  | CSuperDestroy
  | CBufferDestroy (b : Batch).

(** The state the command runs in: the command object itself ([editor],
    [_buffer]), the documents by identity, the next unused batch identity
    and the trace of calls, oldest first. *)
Record St := {
  editor : Editor;
  _buffer : option ChangeBuffer;
  docs : DocId → Document;
  nextBatch : nat;
  trace : list Call
}.

Definition set_buffer (b : option ChangeBuffer) (st : St) : St :=
  {| editor := editor st; _buffer := b; docs := docs st;
     nextBatch := nextBatch st; trace := trace st |}.

Definition set_doc (d : DocId) (x : Document) (st : St) : St :=
  {| editor := editor st; _buffer := _buffer st; docs := <[d := x]> (docs st);
     nextBatch := nextBatch st; trace := trace st |}.

Definition set_nextBatch (n : nat) (st : St) : St :=
  {| editor := editor st; _buffer := _buffer st; docs := docs st;
     nextBatch := n; trace := trace st |}.

Definition record (c : Call) (st : St) : St :=
  {| editor := editor st; _buffer := _buffer st; docs := docs st;
     nextBatch := nextBatch st; trace := trace st ++ [c] |}.

(** ** Computations: state and exceptions

    A JavaScript exception leaves the mutations made before it in place,
    so a computation always answers with a state. *)

Inductive Error := TypeError | ModelError.

Inductive Outcome (A : Type) :=
  | Ok (a : A)
  | Throw (e : Error).
Arguments Ok {A} a.
Arguments Throw {A} e.

Definition M (A : Type) : Type := St → Outcome A * St.

#[global] Instance M_ret : MRet M := λ A a st, (Ok a, st).

#[global] Instance M_bind : MBind M := λ A B k m st,
  match m st with
  | (Ok a, st') => k a st'
  | (Throw e, st') => (Throw e, st')
  end.

Definition throw {A} (e : Error) : M A := λ st, (Throw e, st).
Definition get : M St := λ st, (Ok st, st).
Definition modify (f : St → St) : M unit := λ st, (Ok tt, f st).

(** Reading a member of [null] or [undefined] throws. *)
Definition deref {A} (o : option A) : M A :=
  match o with Some a => mret a | None => throw TypeError end.

Section InputCommand.

(** The document model keeps its selection up to date when content is
    removed or inserted.  How it does so is its own business: the command
    is verified for every such behaviour. *)
Variable liveUpdate : Operation → Selection → Selection.

(** *** The document model at its interface *)

(** Modelled from the spec: removing a range through a batch.  An invalid
    range is "rejected by the underlying document model". *)
Definition Document_remove (r : Range) (x : Document) : option Document :=
  if validRange r (content x) then
    Some {| content := take (offset (start r)) (content x)
                       ++ drop (offset (end_ r)) (content x);
            selection := liveUpdate (OpRemove r) (selection x);
            notified := notified x |}
  else None.

(** Modelled from the spec: inserting a text at a position through a
    batch. *)
Definition Document_insert (p : Position) (t : Text) (x : Document)
  : option Document :=
  if validPosition p (content x) then
    Some {| content := take (offset p) (content x) ++ t
                       ++ drop (offset p) (content x);
            selection := liveUpdate (OpInsert p t) (selection x);
            notified := notified x |}
  else None.

(** An operation on the document [d]; the document model throws when it
    rejects the operation, and then leaves the document as it was. *)
Definition apply_to (d : DocId) (f : Document → option Document) : M unit :=
  λ st, match f (docs st d) with
        | Some x => (Ok tt, set_doc d x st)
        | None => (Throw ModelError, st)
        end.

(** [batch.remove( range )] *)
Definition Batch_remove (b : Batch) (r : Range) : M unit :=
  modify (record (CRemove b r)) ;;
  apply_to (batchDocument b) (Document_remove r).

(** [batch.weakInsert( position, text )] *)
Definition Batch_weakInsert (b : Batch) (p : Position) (t : Text) : M unit :=
  modify (record (CWeakInsert b p t)) ;;
  apply_to (batchDocument b) (Document_insert p t).

(** Modelled from the spec: [doc.selection.getFirstRange()], the "first
    range" accessor of the selection of the document [d]. *)
Definition Selection_getFirstRange (d : DocId) : M (option Range) :=
  modify (record (CGetFirstRange d)) ;;
  st ← get ;
  mret (getFirstRange (selection (docs st d))).

(** Modelled from the spec: [model.selection.collapse( position )] on the
    selection of the document [d]. *)
Definition Selection_collapse (d : DocId) (p : Position) : M unit :=
  modify (record (CCollapse d p)) ;;
  modify (λ st,
    let x := docs st d in
    set_doc d {| content := content x;
                 selection := collapse p (selection x);
                 notified := notified x |} st).

(** Modelled from the spec: the end of a change scope, which commits "all
    mutations as one unit": observers are shown the document once. *)
Definition commit (d : DocId) (st : St) : St :=
  let x := docs st d in
  record (CEnqueueExit d)
    (set_doc d {| content := content x;
                  selection := selection x;
                  notified := notified x ++ [content x] |} st).

(** Modelled from the spec: [doc.enqueueChanges( callback )], "an atomic
    change-scope entry point taking a zero-argument procedure executed
    synchronously within the scope"; "the scope is entered before any
    mutation and exited (committing all mutations as one unit) on every
    exit path". *)
Definition enqueueChanges (d : DocId) (callback : M unit) : M unit :=
  λ st, let (r, st') := callback (record (CEnqueueEnter d) st) in
        (r, commit d st').

(** *** The command *)

(** [this._buffer.batch]; modelled from the spec, the accessor "always
    returns the batch of the current Open state". *)
Definition buffer_batch : M Batch :=
  st ← get ;
  b ← deref (_buffer st) ;
  mret (currentBatch b).

(** [this._buffer.input( n )] *)
Definition buffer_input (n : Z) : M unit :=
  st ← get ;
  b ← deref (_buffer st) ;
  modify (record (CInput n)) ;;
  modify (λ st,
    let (b', fresh) := ChangeBuffer_input n b (nextBatch st) in
    set_nextBatch fresh (set_buffer (Some b') st)).

(** [constructor( editor, undoStepSize )]: the command over [ed], in a
    world with documents [ds] where [fresh] is the next unused batch
    identity. *)
Definition InputCommand_new (ed : Editor) (undoStepSize : Z)
    (ds : DocId → Document) (fresh : nat) : St :=
  let (b, fresh') := ChangeBuffer_new (document ed) undoStepSize fresh in
  {| editor := ed; _buffer := Some b; docs := ds;
     nextBatch := fresh'; trace := [] |}.

(** [destroy()].  The teardown of the base command and the destruction
    of the buffer are calls to code outside this module; they are
    recorded. *)
Definition destroy : M unit :=
  modify (record CSuperDestroy) ;;
  st ← get ;
  b ← deref (_buffer st) ;
  modify (record (CBufferDestroy (currentBatch b))) ;;
  modify (set_buffer None).

(** [get buffer()] *)
Definition buffer (st : St) : option ChangeBuffer := _buffer st.

(** [options.text || ''] *)
Definition text_or_empty (o : option Text) : Text := default [] o.

(** The arrow function that [_doExecute] hands to [doc.enqueueChanges];
    it closes over [range], [text], [textInsertions] and
    [resultPosition]. *)
Definition _doExecute_changes (range : option Range) (text : Text)
    (textInsertions : nat) (resultPosition : option Position) : M unit :=
  range ← deref range ;
  let isCollapsedRange := isCollapsed range in
  (if negb isCollapsedRange then
     b ← buffer_batch ; Batch_remove b range
   else mret tt) ;;
  b ← buffer_batch ;
  Batch_weakInsert b (start range) text ;;
  match resultPosition with
  | Some p =>
      st ← get ; Selection_collapse (data_model (editor st)) p
  | None =>
      if isCollapsedRange then
        st ← get ;
        Selection_collapse (data_model (editor st))
          (getShiftedBy (start range) textInsertions)
      else mret tt
  end ;;
  buffer_input (Z.of_nat textInsertions).

(** [_doExecute( options = {} )] *)
Definition _doExecute (options : option Options) : M unit :=
  let options := default emptyOptions options in
  st ← get ;
  let doc := document (editor st) in
  let text := text_or_empty (text options) in
  let textInsertions := length text in
  range ← match range options with
          | Some r => mret (Some r)
          | None => Selection_getFirstRange doc
          end ;
  let resultPosition := resultPosition options in
  enqueueChanges doc
    (_doExecute_changes range text textInsertions resultPosition).

(** ** Vocabulary of the properties *)

(** A constructed command that was not destroyed: it owns a buffer made
    for [editor.document], and the buffer's open batch is one that the
    document already produced. *)
Definition ready (st : St) (buf : ChangeBuffer) : Prop :=
  _buffer st = Some buf ∧
  bufferDocument buf = document (editor st) ∧
  batchDocument (currentBatch buf) = document (editor st) ∧
  batchId (currentBatch buf) < nextBatch st.

(** The range an execution works on: [options.range], or else the first
    range of the selection of [editor.document]. *)
Definition targetRange (o : Options) (st : St) : option Range :=
  match range o with
  | Some r => Some r
  | None => getFirstRange (selection (docs st (document (editor st))))
  end.

(** The calls issued between two states. *)
Definition calls_since (st st' : St) : list Call :=
  drop (length (trace st)) (trace st').

Definition is_input (c : Call) : bool :=
  match c with CInput _ => true | _ => false end.

Definition is_collapse (c : Call) : bool :=
  match c with CCollapse _ _ => true | _ => false end.

(** The structural operation a call asks for, with the batch that is to
    record it. *)
Definition call_mutation (c : Call) : option (Batch * Operation) :=
  match c with
  | CRemove b r => Some (b, OpRemove r)
  | CWeakInsert b p t => Some (b, OpInsert p t)
  | _ => None
  end.

Definition mutations (cs : list Call) : list (Batch * Operation) :=
  omap call_mutation cs.

(** The selection collapsed at a position. *)
Definition collapsedAt (p : Position) : Selection :=
  {| ranges := [ {| start := p; end_ := p |} ] |}.

(** Successive executions. *)
Fixpoint executeAll (calls : list Options) : M unit :=
  match calls with
  | [] => mret tt
  | o :: calls => _doExecute (Some o) ;; executeAll calls
  end.

(** The input units an execution reports, and their running total over
    the first [i] executions. *)
Definition unitsOf (o : Options) : Z :=
  Z.of_nat (length (text_or_empty (text o))).

Definition cumulative (calls : list Options) (i : nat) : Z :=
  foldr Z.add 0%Z (unitsOf <$> take i calls).

(** *** The state after a successful execution *)

Definition removed (r : Range) (x : Document) : Document :=
  {| content := take (offset (start r)) (content x)
                ++ drop (offset (end_ r)) (content x);
     selection := liveUpdate (OpRemove r) (selection x);
     notified := notified x |}.

Definition inserted (p : Position) (t : Text) (x : Document) : Document :=
  {| content := take (offset p) (content x) ++ t ++ drop (offset p) (content x);
     selection := liveUpdate (OpInsert p t) (selection x);
     notified := notified x |}.

Definition collapsedDoc (p : Position) (x : Document) : Document :=
  {| content := content x; selection := collapsedAt p; notified := notified x |}.

Definition afterRead (o : Options) (st : St) : St :=
  match range o with
  | Some _ => st
  | None => record (CGetFirstRange (document (editor st))) st
  end.

Definition afterRemove (r : Range) (b : Batch) (st : St) : St :=
  if isCollapsed r then st
  else set_doc (batchDocument b) (removed r (docs st (batchDocument b)))
         (record (CRemove b r) st).

Definition afterInsert (p : Position) (t : Text) (b : Batch) (st : St) : St :=
  set_doc (batchDocument b) (inserted p t (docs st (batchDocument b)))
    (record (CWeakInsert b p t) st).

Definition afterCollapse (d : DocId) (p : Position) (st : St) : St :=
  set_doc d (collapsedDoc p (docs (record (CCollapse d p) st) d))
    (record (CCollapse d p) st).

(** Where the command itself places the selection, if it does. *)
Definition placement (o : Options) (r : Range) : option Position :=
  match resultPosition o with
  | Some p => Some p
  | None =>
      if isCollapsed r then
        Some (getShiftedBy (start r) (length (text_or_empty (text o))))
      else None
  end.

Definition afterPlacement (o : Options) (r : Range) (st : St) : St :=
  match placement o r with
  | Some p => afterCollapse (data_model (editor st)) p st
  | None => st
  end.

(** The selection of a document as its own operations leave it. *)
Definition liveSelection (o : Options) (r : Range) (s : Selection)
  : Selection :=
  liveUpdate (OpInsert (start r) (text_or_empty (text o)))
    (if isCollapsed r then s else liveUpdate (OpRemove r) s).

(** The calls of a successful execution, in order. *)
Definition executedCalls (o : Options) (r : Range) (b : Batch)
    (ed : Editor) : list Call :=
  let t := text_or_empty (text o) in
  match range o with Some _ => [] | None => [CGetFirstRange (document ed)] end
  ++ [CEnqueueEnter (document ed)]
  ++ (if isCollapsed r then [] else [CRemove b r])
  ++ [CWeakInsert b (start r) t]
  ++ match placement o r with
     | Some p => [CCollapse (data_model ed) p]
     | None => []
     end
  ++ [CInput (Z.of_nat (length t)); CEnqueueExit (document ed)].

Definition afterInput (n : Z) (buf : ChangeBuffer) (st : St) : St :=
  set_nextBatch (ChangeBuffer_input n buf (nextBatch st)).2
    (set_buffer (Some (ChangeBuffer_input n buf (nextBatch st)).1)
       (record (CInput n) st)).

Definition executed (o : Options) (r : Range) (buf : ChangeBuffer) (st : St)
  : St :=
  let d := document (editor st) in
  let t := text_or_empty (text o) in
  let b := currentBatch buf in
  commit d
    (afterInput (Z.of_nat (length t)) buf
       (afterPlacement o r
          (afterInsert (start r) t b
             (afterRemove r b
                (record (CEnqueueEnter d) (afterRead o st)))))).

(** The document the batches belong to, after a successful execution. *)
Definition executedDocument (o : Options) (r : Range) (st : St) : Document :=
  let d := document (editor st) in
  let c := content (docs st d) in
  let c' := take (offset (start r)) c ++ text_or_empty (text o)
            ++ drop (offset (end_ r)) c in
  {| content := c';
     selection :=
       match placement o r with
       | Some p =>
           if decide (data_model (editor st) = d) then collapsedAt p
           else liveSelection o r (selection (docs st d))
       | None => liveSelection o r (selection (docs st d))
       end;
     notified := notified (docs st d) ++ [c'] |}.

(** A buffer with another count of units. *)
Definition withUnits (u : Z) (b : ChangeBuffer) : ChangeBuffer :=
  {| bufferDocument := bufferDocument b;
     currentBatch := currentBatch b;
     unitsSinceSplit := u;
     splitThreshold := splitThreshold b |}.

(** The batch a buffer opens when it splits. *)
Definition freshBatch (b : ChangeBuffer) (fresh : nat) : Batch :=
  {| batchDocument := bufferDocument b; batchId := fresh |}.

(** *** Statements used below *)

(** The statement "executing with a range collapsed at [P] and the empty
    text changes neither the document, nor the counter and the batch of
    the buffer, and leaves the selection collapsed at [P]". *)
Definition empty_input_is_noop (st : St) (P : Position) : Prop :=
  let d := document (editor st) in
  let run :=
    _doExecute
      (Some {| text := Some [];
               range := Some {| start := P; end_ := P |};
               resultPosition := None |}) st in
  content (docs run.2 d) = content (docs st d) ∧
  selection (docs run.2 (data_model (editor st))) = collapsedAt P ∧
  unitsSinceSplit <$> buffer run.2 = unitsSinceSplit <$> buffer st ∧
  currentBatch <$> buffer run.2 = currentBatch <$> buffer st.





(** *** Sample inputs *)

Definition txt (s : String.string) : Text := String.list_ascii_of_string s.
Arguments txt s%_string_scope.

Definition rangeOf (a b : nat) : Range :=
  {| start := {| offset := a |}; end_ := {| offset := b |} |}.

(** Documents that all read [hello world], with the selection collapsed
    after [hello]. *)
Definition sampleDocs : DocId → Document :=
  λ _, {| content := txt "hello world";
          selection := {| ranges := [rangeOf 5 5] |};
          notified := [] |}.

(** An editor whose data model is its document, and one whose data model
    is another document. *)
Definition sameModel : Editor := {| document := 0; data_model := 0 |}.
Definition otherModel : Editor := {| document := 0; data_model := 1 |}.

(** A document model that leaves selections alone. *)
Definition noLive : Operation → Selection → Selection := λ _ s, s.

(** [new InputCommand( editor, 5 )] and its buffer. *)
Definition sampleCommand (ed : Editor) : St := InputCommand_new ed 5 sampleDocs 0.
Definition sampleBuffer : ChangeBuffer := (ChangeBuffer_new 0 5 0).1.

(** [new InputCommand( editor, 0 )]: a buffer with a zero threshold. *)
Definition zeroThresholdCommand : St := InputCommand_new sameModel 0 sampleDocs 0.

(** Typing [a], [b], [c] and then [de] at the end of the document. *)
Definition typing : list Options :=
  [ {| text := Some (txt "a"); range := Some (rangeOf 11 11);
       resultPosition := None |};
    {| text := Some (txt "b"); range := Some (rangeOf 12 12);
       resultPosition := None |};
    {| text := Some (txt "c"); range := Some (rangeOf 13 13);
       resultPosition := None |};
    {| text := Some (txt "de"); range := Some (rangeOf 14 14);
       resultPosition := None |} ].

(** *** Vocabulary of the further properties *)

(** The state in which an execution leaves the change scope when it
    throws, after the calls [cs] inside the scope. *)
Definition aborted (o : Options) (cs : list Call) (st : St) : St :=
  commit (document (editor st))
    (foldl (λ st c, record c st)
       (record (CEnqueueEnter (document (editor st))) (afterRead o st)) cs).

(** The calls that belong inside a change scope. *)
Definition inside_scope (c : Call) : bool :=
  match c with
  | CRemove _ _ | CWeakInsert _ _ _ | CCollapse _ _ | CInput _ => true
  | _ => false
  end.

Definition is_remove (c : Call) : bool :=
  match c with CRemove _ _ => true | _ => false end.

Definition is_exit (c : Call) : bool :=
  match c with CEnqueueExit _ => true | _ => false end.

(** A computation that only issues calls satisfying [P]. *)
Definition emits (P : Call → Prop) {A} (m : M A) : Prop :=
  ∀ st, ∃ new, trace (m st).2 = trace st ++ new ∧ Forall P new.

(** Typing a text at the cursor: no range, no result position. *)
Definition typed (T : Text) : Options :=
  {| text := Some T; range := None; resultPosition := None |}.

Definition collapsedRange (p : Position) : Range :=
  {| start := p; end_ := p |}.

(** A buffer with threshold [K] whose counter is within [0, K). *)
Definition countsBelow (K : Z) (b : ChangeBuffer) : Prop :=
  splitThreshold b = K ∧ (0 ≤ unitsSinceSplit b < K)%Z.

(** ** Steps of the collaborators *)

Lemma buffer_batch_ready st buf :
  _buffer st = Some buf → buffer_batch st = (Ok (currentBatch buf), st).
Proof. intros H. unfold buffer_batch, mbind, M_bind, get. now rewrite H. Qed.

Lemma Batch_remove_valid b r st :
  validRange r (content (docs st (batchDocument b))) = true →
  Batch_remove b r st
  = (Ok tt, set_doc (batchDocument b) (removed r (docs st (batchDocument b)))
              (record (CRemove b r) st)).
Proof.
  intros H. unfold Batch_remove, apply_to, Document_remove, mbind, M_bind, modify.
  simpl. now rewrite H.
Qed.

Lemma Batch_remove_invalid b r st :
  validRange r (content (docs st (batchDocument b))) = false →
  Batch_remove b r st = (Throw ModelError, record (CRemove b r) st).
Proof.
  intros H. unfold Batch_remove, apply_to, Document_remove, mbind, M_bind, modify.
  simpl. now rewrite H.
Qed.

Lemma Batch_weakInsert_valid b p t st :
  validPosition p (content (docs st (batchDocument b))) = true →
  Batch_weakInsert b p t st = (Ok tt, afterInsert p t b st).
Proof.
  intros H.
  unfold Batch_weakInsert, apply_to, Document_insert, mbind, M_bind, modify.
  simpl. now rewrite H.
Qed.

Lemma Batch_weakInsert_invalid b p t st :
  validPosition p (content (docs st (batchDocument b))) = false →
  Batch_weakInsert b p t st = (Throw ModelError, record (CWeakInsert b p t) st).
Proof.
  intros H.
  unfold Batch_weakInsert, apply_to, Document_insert, mbind, M_bind, modify.
  simpl. now rewrite H.
Qed.


Lemma buffer_input_ready n st buf :
  _buffer st = Some buf → buffer_input n st = (Ok tt, afterInput n buf st).
Proof.
  intros H. unfold buffer_input, mbind, M_bind, get, modify. rewrite H. simpl.
  unfold afterInput. now destruct (ChangeBuffer_input n buf (nextBatch st)).
Qed.

Lemma validRange_collapsed r c :
  isCollapsed r = true → validRange r c = validPosition (start r) c.
Proof.
  unfold isCollapsed, validRange, validPosition. intros H%bool_decide_eq_true.
  rewrite <- H. apply bool_decide_ext. lia.
Qed.

Lemma validRange_start r c :
  validRange r c = true →
  validPosition (start r)
    (take (offset (start r)) c ++ drop (offset (end_ r)) c) = true.
Proof.
  unfold validRange, validPosition. intros [H1 H2]%bool_decide_eq_true.
  apply bool_decide_eq_true. rewrite length_app, length_take. lia.
Qed.

Lemma read_range o st :
  match range o with
  | Some r => mret (Some r)
  | None => Selection_getFirstRange (document (editor st))
  end st = (Ok (targetRange o st), afterRead o st).
Proof. unfold targetRange, afterRead. now destruct (range o). Qed.

Lemma changes_valid st buf o r :
  let d := document (editor st) in
  let t := text_or_empty (text o) in
  _buffer st = Some buf →
  batchDocument (currentBatch buf) = d →
  validRange r (content (docs st d)) = true →
  _doExecute_changes (Some r) t (length t) (resultPosition o) st
  = (Ok tt,
     afterInput (Z.of_nat (length t)) buf
       (afterPlacement o r
          (afterInsert (start r) t (currentBatch buf)
             (afterRemove r (currentBatch buf) st)))).
Proof.
  intros d t Hb Hbd Hv. subst d.
  unfold _doExecute_changes, afterRemove, afterPlacement, placement.
  simpl; unfold mbind, M_bind; simpl.
  destruct (isCollapsed r) eqn:Hc; simpl.
  - rewrite (buffer_batch_ready _ _ Hb).
    rewrite Batch_weakInsert_valid
      by (rewrite Hbd, <- validRange_collapsed; done).
    destruct (resultPosition o); simpl;
      now rewrite (buffer_input_ready _ _ buf).
  - rewrite (buffer_batch_ready _ _ Hb).
    rewrite Batch_remove_valid by (now rewrite Hbd).
    rewrite (buffer_batch_ready _ buf) by done.
    rewrite Batch_weakInsert_valid.
    + destruct (resultPosition o); simpl;
        now rewrite (buffer_input_ready _ _ buf).
    + simpl. rewrite fn_lookup_insert. simpl. rewrite Hbd.
      now apply validRange_start.
Qed.

Lemma doExecute_valid st buf o r :
  ready st buf →
  targetRange o st = Some r →
  validRange r (content (docs st (document (editor st)))) = true →
  _doExecute (Some o) st = (Ok tt, executed o r buf st).
Proof.
  intros (Hb & Hd & Hbd & Hf) Hr Hv.
  unfold _doExecute, enqueueChanges, executed. simpl.
  unfold mbind at 1 2, M_bind at 1 2. simpl.
  rewrite read_range, Hr.
  rewrite (changes_valid _ buf o r); [done | | |].
  - unfold afterRead. now destruct (range o).
  - unfold afterRead. now destruct (range o).
  - unfold afterRead. now destruct (range o).
Qed.

(** ** What a successful execution leaves behind *)

Lemma executed_editor o r buf st : editor (executed o r buf st) = editor st.
Proof.
  unfold executed, afterPlacement, afterRemove, afterRead.
  destruct (placement o r), (isCollapsed r), (range o); reflexivity.
Qed.

Lemma executed_buffer o r buf st :
  _buffer (executed o r buf st)
  = Some (ChangeBuffer_input (unitsOf o) buf (nextBatch st)).1.
Proof.
  unfold executed, afterPlacement, afterRemove, afterRead.
  destruct (placement o r), (isCollapsed r), (range o); reflexivity.
Qed.

Lemma executed_nextBatch o r buf st :
  nextBatch (executed o r buf st)
  = (ChangeBuffer_input (unitsOf o) buf (nextBatch st)).2.
Proof.
  unfold executed, afterPlacement, afterRemove, afterRead.
  destruct (placement o r), (isCollapsed r), (range o); reflexivity.
Qed.

Lemma executed_trace o r buf st :
  trace (executed o r buf st)
  = trace st ++ executedCalls o r (currentBatch buf) (editor st).
Proof.
  unfold executed, executedCalls, afterPlacement, afterRemove, afterRead.
  destruct (placement o r), (isCollapsed r), (range o); simpl;
    now rewrite <- ?app_assoc.
Qed.

Lemma executed_calls o r buf st :
  calls_since st (executed o r buf st)
  = executedCalls o r (currentBatch buf) (editor st).
Proof. unfold calls_since. now rewrite executed_trace, drop_app_length. Qed.

Lemma replace_content (c t : Text) (s e : nat) :
  s ≤ e → e ≤ length c →
  take s (take s c ++ drop e c) ++ t ++ drop s (take s c ++ drop e c)
  = take s c ++ t ++ drop e c.
Proof.
  intros Hs He.
  assert (Hl : s = length (take s c)) by (rewrite length_take; lia).
  now rewrite (take_app_length' _ _ _ Hl), (drop_app_length' _ _ _ Hl).
Qed.

Lemma executed_document o r buf st :
  batchDocument (currentBatch buf) = document (editor st) →
  validRange r (content (docs st (document (editor st)))) = true →
  docs (executed o r buf st) (document (editor st)) = executedDocument o r st.
Proof.
  intros Hbd Hv.
  assert (Hv' := Hv). apply bool_decide_eq_true in Hv' as [Hs He].
  unfold executed, executedDocument, commit, afterInput, afterPlacement,
    afterCollapse, afterInsert, afterRemove, afterRead, liveSelection.
  rewrite Hbd.
  assert (Hcol : isCollapsed r = true → end_ r = start r)
    by (now intros ->%bool_decide_eq_true).
  destruct (decide (data_model (editor st) = document (editor st))) as [E|E];
    destruct (placement o r) as [p|], (isCollapsed r) eqn:Hc, (range o);
    simpl; rewrite ?E;
    repeat (rewrite fn_lookup_insert
            || rewrite fn_lookup_insert_ne by done); simpl;
    rewrite ?Hcol by done;
    rewrite ?replace_content by done;
    reflexivity.
Qed.

Lemma executed_model_selection o r buf st :
  batchDocument (currentBatch buf) = document (editor st) →
  selection (docs (executed o r buf st) (data_model (editor st)))
  = match placement o r with
    | Some p => collapsedAt p
    | None =>
        if decide (data_model (editor st) = document (editor st)) then
          liveSelection o r (selection (docs st (document (editor st))))
        else selection (docs st (data_model (editor st)))
    end.
Proof.
  intros Hbd.
  unfold executed, commit, afterInput, afterPlacement, afterCollapse,
    afterInsert, afterRemove, afterRead, liveSelection.
  rewrite Hbd.
  destruct (decide (data_model (editor st) = document (editor st))) as [E|E];
    destruct (placement o r) as [p|], (isCollapsed r) eqn:Hc, (range o);
    simpl; rewrite ?E;
    repeat (rewrite fn_lookup_insert
            || rewrite fn_lookup_insert_ne by done); simpl;
    reflexivity.
Qed.

(** ** Replacing a range *)

(** C1.  Executing with a non-collapsed range [R] of the document and a
    text [T] succeeds; the content of the document becomes what preceded
    [R], then [T], then what followed [R]; the calls of the execution are
    one change scope that holds the removal of [R], then the weak insertion
    of [T] at the start of [R], both through the buffer's batch; and
    observers are shown the document once more, with the final content. *)
Theorem execute_replaces_range_in_one_scope st buf R T rp :
  ready st buf →
  isCollapsed R = false →
  validRange R (content (docs st (document (editor st)))) = true →
  let d := document (editor st) in
  let c := content (docs st d) in
  let run :=
    _doExecute
      (Some {| text := Some T; range := Some R; resultPosition := rp |}) st in
  run.1 = Ok tt ∧
  content (docs run.2 d)
  = take (offset (start R)) c ++ T ++ drop (offset (end_ R)) c ∧
  notified (docs run.2 d) = notified (docs st d) ++ [content (docs run.2 d)] ∧
  calls_since st run.2
  = [CEnqueueEnter d;
     CRemove (currentBatch buf) R;
     CWeakInsert (currentBatch buf) (start R) T]
    ++ match rp with
       | Some p => [CCollapse (data_model (editor st)) p]
       | None => []
       end
    ++ [CInput (Z.of_nat (length T)); CEnqueueExit d].
Proof.
  intros Hready Hc Hv d c run. subst d c run.
  rewrite (doExecute_valid _ buf _ R) by done. cbn [fst snd].
  destruct Hready as (_ & _ & Hbd & _).
  rewrite executed_document, executed_calls by done.
  unfold executedCalls, placement. simpl. rewrite Hc.
  repeat split. now destruct rp.
Qed.

(** ** Placing the selection *)

(** C2.  Executing with a collapsed range at a position of the document,
    a text [T] and no result position succeeds and leaves the selection
    collapsed at that position shifted by the length of [T]. *)
Theorem execute_collapsed_shifts_selection st buf R T :
  ready st buf →
  isCollapsed R = true →
  validRange R (content (docs st (document (editor st)))) = true →
  let run :=
    _doExecute
      (Some {| text := Some T; range := Some R; resultPosition := None |}) st in
  run.1 = Ok tt ∧
  selection (docs run.2 (data_model (editor st)))
  = collapsedAt (getShiftedBy (start R) (length T)).
Proof.
  intros Hready Hc Hv run. subst run.
  rewrite (doExecute_valid _ buf _ R) by done. cbn [fst snd].
  destruct Hready as (_ & _ & Hbd & _).
  rewrite executed_model_selection by done.
  unfold placement. simpl. now rewrite Hc.
Qed.

(** C3.  Executing with a result position [X] succeeds and leaves the
    selection collapsed at [X], whatever the range is and wherever it
    comes from. *)
Theorem execute_result_position st buf o r X :
  ready st buf →
  resultPosition o = Some X →
  targetRange o st = Some r →
  validRange r (content (docs st (document (editor st)))) = true →
  let run := _doExecute (Some o) st in
  run.1 = Ok tt ∧
  selection (docs run.2 (data_model (editor st))) = collapsedAt X.
Proof.
  intros Hready HX Hr Hv run. subst run.
  rewrite (doExecute_valid _ buf _ r) by done. cbn [fst snd].
  destruct Hready as (_ & _ & Hbd & _).
  rewrite executed_model_selection by done.
  unfold placement. now rewrite HX.
Qed.

(** C8.  Executing with a non-collapsed range and no result position
    succeeds without any call to [collapse]: the selection is what the
    removal and the insertion made of it, when [editor.data.model] is the
    document they apply to, and is untouched otherwise. *)
Theorem execute_noncollapsed_places_no_selection st buf o r :
  ready st buf →
  resultPosition o = None →
  targetRange o st = Some r →
  isCollapsed r = false →
  validRange r (content (docs st (document (editor st)))) = true →
  let d := document (editor st) in
  let m := data_model (editor st) in
  let run := _doExecute (Some o) st in
  run.1 = Ok tt ∧
  Forall (λ c, is_collapse c = false) (calls_since st run.2) ∧
  selection (docs run.2 m)
  = if decide (m = d) then
      liveUpdate (OpInsert (start r) (text_or_empty (text o)))
        (liveUpdate (OpRemove r) (selection (docs st d)))
    else selection (docs st m).
Proof.
  intros Hready HX Hr Hc Hv d m run. subst d m run.
  rewrite (doExecute_valid _ buf _ r) by done. cbn [fst snd].
  destruct Hready as (_ & _ & Hbd & _).
  rewrite executed_model_selection, executed_calls by done.
  unfold executedCalls, liveSelection, placement. rewrite HX, Hc.
  repeat split.
  destruct (range o); repeat constructor.
Qed.

(** ** Accounting for the input *)

(** C5.  A successful execution calls [input] exactly once, with the
    length of the text, as its last call inside the change scope: the calls
    before it hold the removal (if the range is not collapsed) and the
    insertion, both through the very batch the buffer had open when the
    execution began, and no call to [input]. *)
Theorem execute_reports_input_once_after_mutations st buf o r :
  ready st buf →
  targetRange o st = Some r →
  validRange r (content (docs st (document (editor st)))) = true →
  let t := text_or_empty (text o) in
  let b := currentBatch buf in
  let run := _doExecute (Some o) st in
  run.1 = Ok tt ∧
  filter (λ c, is_input c = true) (calls_since st run.2)
  = [CInput (Z.of_nat (length t))] ∧
  ∃ before,
    calls_since st run.2
    = before ++ [CInput (Z.of_nat (length t));
                 CEnqueueExit (document (editor st))] ∧
    Forall (λ c, is_input c = false) before ∧
    mutations before
    = (if isCollapsed r then [] else [(b, OpRemove r)])
      ++ [(b, OpInsert (start r) t)].
Proof.
  intros Hready Hr Hv t b run. subst t b run.
  rewrite (doExecute_valid _ buf _ r) by done. cbn [fst snd].
  rewrite executed_calls. unfold executedCalls.
  split; [done|]. split.
  { destruct (range o), (isCollapsed r), (placement o r); reflexivity. }
  exists (match range o with
          | Some _ => []
          | None => [CGetFirstRange (document (editor st))]
          end
          ++ [CEnqueueEnter (document (editor st))]
          ++ (if isCollapsed r then [] else [CRemove (currentBatch buf) r])
          ++ [CWeakInsert (currentBatch buf) (start r) (text_or_empty (text o))]
          ++ match placement o r with
             | Some p => [CCollapse (data_model (editor st)) p]
             | None => []
             end).
  split; [|split].
  - now rewrite <- !app_assoc.
  - destruct (range o), (isCollapsed r), (placement o r);
      repeat constructor.
  - unfold mutations.
    destruct (range o), (isCollapsed r), (placement o r); reflexivity.
Qed.

(** ** Defaults of the options *)

(** C9.  An execution without [text] inserts the empty text: on a ready
    command with a valid range, the insertion it asks for carries the empty
    text, [input] is told zero units, and the content is what preceded
    the range followed by what followed it.  An execution without [range]
    works on the first range of the selection of [editor.document]: it
    first asks that selection for its first range, then removes (unless it
    is collapsed) and inserts at that range; with no first range it throws
    a [TypeError] inside the scope.  An execution without options is the
    execution with the empty options object. *)
Theorem execute_defaults st buf r :
  ready st buf →
  validRange r (content (docs st (document (editor st)))) = true →
  let d := document (editor st) in
  let c := content (docs st d) in
  let b := currentBatch buf in
  (∀ rg rp,
     targetRange {| text := None; range := rg; resultPosition := rp |} st
     = Some r →
     let run :=
       _doExecute
         (Some {| text := None; range := rg; resultPosition := rp |}) st in
     run.1 = Ok tt ∧
     mutations (calls_since st run.2)
     = (if isCollapsed r then [] else [(b, OpRemove r)])
       ++ [(b, OpInsert (start r) [])] ∧
     filter (λ c, is_input c = true) (calls_since st run.2) = [CInput 0] ∧
     content (docs run.2 d)
     = take (offset (start r)) c ++ drop (offset (end_ r)) c) ∧
  (∀ T rp,
     getFirstRange (selection (docs st d)) = Some r →
     let run :=
       _doExecute
         (Some {| text := Some T; range := None; resultPosition := rp |}) st in
     run.1 = Ok tt ∧
     (∃ rest,
        calls_since st run.2 = CGetFirstRange d :: CEnqueueEnter d :: rest) ∧
     mutations (calls_since st run.2)
     = (if isCollapsed r then [] else [(b, OpRemove r)])
       ++ [(b, OpInsert (start r) T)] ∧
     content (docs run.2 d)
     = take (offset (start r)) c ++ T ++ drop (offset (end_ r)) c) ∧
  (∀ tx rp,
     _doExecute (Some {| text := tx; range := None; resultPosition := rp |}) st
     = match getFirstRange (selection (docs st d)) with
       | Some r0 =>
           _doExecute
             (Some {| text := tx; range := Some r0; resultPosition := rp |})
             (record (CGetFirstRange d) st)
       | None =>
           (Throw TypeError,
            commit d (record (CEnqueueEnter d) (record (CGetFirstRange d) st)))
       end) ∧
  _doExecute None st = _doExecute (Some emptyOptions) st.
Proof.
  intros Hready Hv d c b. subst d c b.
  assert (Hbd : batchDocument (currentBatch buf) = document (editor st))
    by apply Hready.
  split; [|split; [|split; [|reflexivity]]].
  - intros rg rp Hr run. subst run.
    rewrite (doExecute_valid _ buf _ r) by done. cbn [fst snd].
    rewrite executed_document, executed_calls by done.
    unfold executedDocument, executedCalls, mutations.
    cbn [text range text_or_empty default length content].
    repeat split;
      destruct rg, (isCollapsed r),
        (placement {| text := None; range := _; resultPosition := rp |} r);
      reflexivity.
  - intros T rp Hr run. subst run.
    rewrite (doExecute_valid _ buf _ r) by done. cbn [fst snd].
    rewrite executed_document, executed_calls by done.
    unfold executedDocument, executedCalls, mutations.
    cbn [text range text_or_empty default length content].
    repeat split.
    + eexists. reflexivity.
    + destruct (isCollapsed r),
        (placement {| text := Some T; range := None; resultPosition := rp |} r);
        reflexivity.
  - intros tx rp.
    unfold _doExecute. simpl. unfold mbind, M_bind. simpl.
    destruct (getFirstRange (selection (docs st (document (editor st)))));
      reflexivity.
Qed.

(** ** Tearing down *)

(** C7.  On a command that still owns its buffer, [destroy] succeeds: it
    calls the teardown of the base command, then destroys the buffer, and
    afterwards the [buffer] accessor answers [null]. *)
Theorem destroy_releases_buffer st buf :
  _buffer st = Some buf →
  destroy st
  = (Ok tt,
     set_buffer None
       (record (CBufferDestroy (currentBatch buf)) (record CSuperDestroy st))) ∧
  calls_since st (destroy st).2
  = [CSuperDestroy; CBufferDestroy (currentBatch buf)] ∧
  buffer (destroy st).2 = None.
Proof.
  intros Hb.
  assert (E : destroy st
    = (Ok tt,
       set_buffer None
         (record (CBufferDestroy (currentBatch buf))
            (record CSuperDestroy st)))).
  { unfold destroy, mbind, M_bind, modify, get. simpl. now rewrite Hb. }
  rewrite E. repeat split.
  unfold calls_since. simpl. rewrite <- app_assoc. apply drop_app_length.
Qed.

(** ** Empty input *)

Lemma getShiftedBy_0 p : getShiftedBy p 0 = p.
Proof. destruct p as [n]. unfold getShiftedBy. simpl. f_equal. lia. Qed.

Lemma ChangeBuffer_input_0 b fresh :
  (unitsSinceSplit b < splitThreshold b)%Z →
  ChangeBuffer_input 0 b fresh = (b, fresh).
Proof.
  intros H. unfold ChangeBuffer_input. rewrite Z.add_0_r.
  destruct (Z.leb_spec (splitThreshold b) (unitsSinceSplit b)); [lia|].
  now destruct b.
Qed.

(** A buffer with a positive threshold keeps its counter below it. *)
Lemma ChangeBuffer_new_below d limit fresh :
  (0 < limit)%Z →
  let b := (ChangeBuffer_new d limit fresh).1 in
  (0 ≤ unitsSinceSplit b < splitThreshold b)%Z.
Proof. simpl. lia. Qed.

Lemma ChangeBuffer_input_below n b fresh :
  (0 ≤ n)%Z →
  (0 ≤ unitsSinceSplit b < splitThreshold b)%Z →
  let b' := (ChangeBuffer_input n b fresh).1 in
  splitThreshold b' = splitThreshold b ∧
  (0 ≤ unitsSinceSplit b' < splitThreshold b')%Z.
Proof.
  intros Hn Hb. unfold ChangeBuffer_input.
  destruct (Z.leb_spec (splitThreshold b) (unitsSinceSplit b + n)); simpl; lia.
Qed.

(** C6, as amended.  Executing with a range collapsed at a position [P]
    of the document and the empty text succeeds, leaves the content of the
    document as it was and the selection collapsed at [P], and reports zero
    units to the buffer, whatever the threshold; when the counter of the
    buffer is below its threshold, the buffer, with its counter and its
    batch, is as it was. *)
Theorem execute_empty_input_is_noop_edit st buf P :
  ready st buf →
  validPosition P (content (docs st (document (editor st)))) = true →
  let d := document (editor st) in
  let run :=
    _doExecute
      (Some {| text := Some [];
               range := Some {| start := P; end_ := P |};
               resultPosition := None |}) st in
  run.1 = Ok tt ∧
  content (docs run.2 d) = content (docs st d) ∧
  selection (docs run.2 (data_model (editor st))) = collapsedAt P ∧
  mutations (calls_since st run.2) = [(currentBatch buf, OpInsert P [])] ∧
  filter (λ c, is_input c = true) (calls_since st run.2) = [CInput 0] ∧
  ((unitsSinceSplit buf < splitThreshold buf)%Z →
   buffer run.2 = Some buf ∧ nextBatch run.2 = nextBatch st).
Proof.
  intros Hready HP d run. subst d run.
  set (R := {| start := P; end_ := P |}).
  assert (Hc : isCollapsed R = true) by (now apply bool_decide_eq_true).
  assert (Hv : validRange R (content (docs st (document (editor st)))) = true)
    by (now rewrite validRange_collapsed).
  rewrite (doExecute_valid _ buf _ R) by done. cbn [fst snd].
  destruct Hready as (_ & _ & Hbd & _).
  rewrite executed_document, executed_model_selection, executed_calls by done.
  unfold buffer. rewrite executed_buffer, executed_nextBatch.
  unfold executedDocument, executedCalls, placement, unitsOf.
  cbn [text resultPosition range text_or_empty default length content].
  rewrite Hc. cbn [start end_ R]. rewrite getShiftedBy_0.
  split; [done|]. split; [apply take_drop|]. split; [done|].
  split; [done|]. split; [done|].
  intros Hlt. now rewrite ChangeBuffer_input_0.
Qed.

(** ** Failing executions *)

Lemma enqueueChanges_outcome d (callback : M unit) st :
  (enqueueChanges d callback st).1
  = (callback (record (CEnqueueEnter d) st)).1.
Proof.
  unfold enqueueChanges. now destruct (callback (record (CEnqueueEnter d) st)).
Qed.

Lemma changes_invalid st buf r t n rp :
  _buffer st = Some buf →
  validRange r (content (docs st (batchDocument (currentBatch buf)))) = false →
  (_doExecute_changes (Some r) t n rp st).1 = Throw ModelError.
Proof.
  intros Hb Hv. unfold _doExecute_changes.
  simpl; unfold mbind, M_bind; simpl.
  destruct (isCollapsed r) eqn:Hc; simpl.
  - rewrite (buffer_batch_ready _ _ Hb).
    rewrite Batch_weakInsert_invalid; [done|].
    now rewrite <- validRange_collapsed.
  - rewrite (buffer_batch_ready _ _ Hb).
    now rewrite Batch_remove_invalid.
Qed.

Lemma doExecute_outcome st o :
  (_doExecute (Some o) st).1
  = (_doExecute_changes (targetRange o st) (text_or_empty (text o))
       (length (text_or_empty (text o))) (resultPosition o)
       (record (CEnqueueEnter (document (editor st))) (afterRead o st))).1.
Proof.
  unfold _doExecute. simpl. unfold mbind at 1 2, M_bind at 1 2. simpl.
  rewrite read_range. apply enqueueChanges_outcome.
Qed.

Lemma doExecute_Ok_valid st buf o :
  ready st buf →
  (_doExecute (Some o) st).1 = Ok tt →
  ∃ r, targetRange o st = Some r ∧
       validRange r (content (docs st (document (editor st)))) = true.
Proof.
  intros (Hb & Hd & Hbd & Hf). rewrite doExecute_outcome.
  destruct (targetRange o st) as [r|]; [|discriminate].
  destruct (validRange r (content (docs st (document (editor st))))) eqn:Hv;
    [eauto|].
  rewrite (changes_invalid _ buf); [discriminate| |].
  - unfold afterRead. now destruct (range o).
  - rewrite Hbd. unfold afterRead. now destruct (range o).
Qed.

(** ** Commands that are ready *)

Lemma InputCommand_new_ready ed undoStepSize ds fresh :
  ready (InputCommand_new ed undoStepSize ds fresh)
    (ChangeBuffer_new (document ed) undoStepSize fresh).1.
Proof. unfold ready. simpl. repeat split. lia. Qed.

Lemma ChangeBuffer_input_ready n st buf :
  ready st buf →
  ready
    (set_nextBatch (ChangeBuffer_input n buf (nextBatch st)).2
       (set_buffer (Some (ChangeBuffer_input n buf (nextBatch st)).1) st))
    (ChangeBuffer_input n buf (nextBatch st)).1.
Proof.
  intros (Hb & Hd & Hbd & Hf). unfold ready, ChangeBuffer_input.
  destruct (splitThreshold buf <=? unitsSinceSplit buf + n)%Z; simpl;
    repeat split; try done; lia.
Qed.

(** ** Batching *)

Lemma ChangeBuffer_input_keeps n b fresh :
  (unitsSinceSplit b + n < splitThreshold b)%Z →
  ChangeBuffer_input n b fresh = (withUnits (unitsSinceSplit b + n) b, fresh).
Proof.
  intros H. unfold ChangeBuffer_input.
  now destruct (Z.leb_spec (splitThreshold b) (unitsSinceSplit b + n)); [lia|].
Qed.

Lemma ChangeBuffer_input_splits n b fresh :
  (splitThreshold b ≤ unitsSinceSplit b + n)%Z →
  ChangeBuffer_input n b fresh
  = (withUnits 0 {| bufferDocument := bufferDocument b;
                    currentBatch := freshBatch b fresh;
                    unitsSinceSplit := unitsSinceSplit b;
                    splitThreshold := splitThreshold b |}, S fresh).
Proof.
  intros H. unfold ChangeBuffer_input.
  now destruct (Z.leb_spec (splitThreshold b) (unitsSinceSplit b + n)); [|lia].
Qed.

Lemma mutations_executedCalls o r b ed :
  Forall (λ bo, bo.1 = b) (mutations (executedCalls o r b ed)).
Proof.
  unfold executedCalls, mutations.
  destruct (range o), (isCollapsed r), (placement o r); repeat constructor.
Qed.

Lemma doExecute_Ok_step st buf o :
  ready st buf →
  (_doExecute (Some o) st).1 = Ok tt →
  let st' := (_doExecute (Some o) st).2 in
  editor st' = editor st ∧
  _buffer st' = Some (ChangeBuffer_input (unitsOf o) buf (nextBatch st)).1 ∧
  nextBatch st' = (ChangeBuffer_input (unitsOf o) buf (nextBatch st)).2 ∧
  ∃ new, trace st' = trace st ++ new ∧
         Forall (λ bo, bo.1 = currentBatch buf) (mutations new).
Proof.
  intros Hready Hok.
  destruct (doExecute_Ok_valid _ _ _ Hready Hok) as (r & Hr & Hv).
  rewrite (doExecute_valid _ buf _ r) by done. cbn [snd].
  rewrite executed_editor, executed_buffer, executed_nextBatch, executed_trace.
  repeat split. eexists. split; [done|]. apply mutations_executedCalls.
Qed.

(** A successful execution leaves the command ready for the next one. *)
Lemma doExecute_ready st buf o :
  ready st buf →
  (_doExecute (Some o) st).1 = Ok tt →
  ready (_doExecute (Some o) st).2
    (ChangeBuffer_input (unitsOf o) buf (nextBatch st)).1.
Proof.
  intros Hready Hok.
  destruct (doExecute_Ok_step _ _ _ Hready Hok) as (He & Hb & Hn & _).
  destruct (ChangeBuffer_input_ready (unitsOf o) _ _ Hready)
    as (_ & Hd & Hbd & Hf).
  simpl in Hd, Hbd, Hf. unfold ready. rewrite He, Hn. now repeat split.
Qed.

Lemma executeAll_app l1 l2 st :
  executeAll (l1 ++ l2) st
  = match executeAll l1 st with
    | (Ok _, st1) => executeAll l2 st1
    | (Throw e, st1) => (Throw e, st1)
    end.
Proof.
  revert st. induction l1 as [|o l1 IH]; intros st; [done|].
  simpl. unfold mbind, M_bind.
  destruct (_doExecute (Some o) st) as [[[]|e] st1]; [apply IH|done].
Qed.

Lemma executeAll_prefix_ok l1 l2 st :
  (executeAll (l1 ++ l2) st).1 = Ok tt → (executeAll l1 st).1 = Ok tt.
Proof.
  rewrite executeAll_app.
  now destruct (executeAll l1 st) as [[[]|e] st1].
Qed.

Lemma cumulative_cons o calls i :
  cumulative (o :: calls) (S i) = (unitsOf o + cumulative calls i)%Z.
Proof. reflexivity. Qed.

Lemma cumulative_take calls i k :
  k ≤ i → cumulative (take i calls) k = cumulative calls k.
Proof.
  intros H. unfold cumulative. rewrite take_take. now rewrite Nat.min_l.
Qed.

Lemma cumulative_S calls i o :
  calls !! i = Some o →
  cumulative calls (S i) = (cumulative calls i + unitsOf o)%Z.
Proof.
  intros H. unfold cumulative. rewrite (take_S_r _ _ _ H), fmap_app, foldr_app.
  simpl. generalize (unitsOf <$> take i calls). intros l.
  induction l as [|x l IH]; simpl; [lia|]. rewrite IH. lia.
Qed.

Lemma withUnits_same b : withUnits (unitsSinceSplit b) b = b.
Proof. now destruct b. Qed.

(** As long as the running total stays below the threshold, the buffer
    only counts: its batch stays, and every operation goes through it. *)
Lemma executeAll_below calls : ∀ st buf,
  ready st buf →
  (∀ i, 1 ≤ i ≤ length calls →
        (unitsSinceSplit buf + cumulative calls i < splitThreshold buf)%Z) →
  (executeAll calls st).1 = Ok tt →
  let st' := (executeAll calls st).2 in
  editor st' = editor st ∧
  _buffer st'
  = Some (withUnits (unitsSinceSplit buf + cumulative calls (length calls)) buf) ∧
  nextBatch st' = nextBatch st ∧
  ∃ new, trace st' = trace st ++ new ∧
         Forall (λ bo, bo.1 = currentBatch buf) (mutations new).
Proof.
  induction calls as [|o calls IH]; intros st buf Hready Hlt Hok.
  - simpl. unfold cumulative. simpl. rewrite Z.add_0_r, withUnits_same.
    destruct Hready as (Hb & _). repeat split; [done|].
    exists []. now rewrite app_nil_r.
  - simpl in Hok |- *. unfold mbind, M_bind in Hok |- *.
    destruct (_doExecute (Some o) st) as [[[]|e] st1] eqn:Hrun; [|done].
    assert (Hok1 : (_doExecute (Some o) st).1 = Ok tt) by now rewrite Hrun.
    destruct (doExecute_Ok_step _ _ _ Hready Hok1) as (He & Hb & Hn & new & Ht & Hm).
    rewrite Hrun in He, Hb, Hn, Ht. cbn [snd] in He, Hb, Hn, Ht.
    assert (H1 := Hlt 1 ltac:(simpl; lia)).
    rewrite cumulative_cons in H1. unfold cumulative in H1.
    rewrite take_0 in H1. simpl in H1. rewrite Z.add_0_r in H1.
    rewrite ChangeBuffer_input_keeps in Hb, Hn by done. cbn [fst snd] in Hb, Hn.
    destruct Hready as (_ & Hd & Hbd & Hf).
    destruct (IH st1 (withUnits (unitsSinceSplit buf + unitsOf o) buf))
      as (He' & Hb' & Hn' & new' & Ht' & Hm'); [| |done|].
    + unfold ready. rewrite He, Hn. now repeat split.
    + intros i Hi. simpl.
      specialize (Hlt (S i) ltac:(simpl; lia)).
      rewrite cumulative_cons in Hlt. lia.
    + rewrite He', Hb', Hn', Ht', He, Hn, Ht. cbn [length].
      rewrite cumulative_cons. simpl. repeat split.
      * unfold withUnits. simpl. do 2 f_equal. lia.
      * exists (new ++ new'). rewrite app_assoc. split; [done|].
        unfold mutations in *. rewrite omap_app. now apply Forall_app.
Qed.

(** C4.  Let the buffer start with a zero counter and threshold [K], and
    let [j] be the first execution after which the running total of
    inserted units is [K] or more.  Then the buffer shows the same batch
    before each of the executions 1 to [j], every removal and insertion of
    these executions goes through that batch, and after execution [j] the
    buffer shows a batch that was not produced before, with a zero counter.
    [input( n )] adds [n] to the counter, and when the sum reaches the
    threshold it opens a fresh batch and resets the counter. *)
Theorem batch_is_kept_until_threshold st buf K calls j :
  ready st buf →
  unitsSinceSplit buf = 0%Z →
  splitThreshold buf = K →
  1 ≤ j ≤ length calls →
  (∀ i, 1 ≤ i < j → (cumulative calls i < K)%Z) →
  (K ≤ cumulative calls j)%Z →
  (executeAll (take j calls) st).1 = Ok tt →
  let b0 := currentBatch buf in
  let stj := (executeAll (take j calls) st).2 in
  (∀ i, i < j →
        currentBatch <$> buffer (executeAll (take i calls) st).2 = Some b0) ∧
  Forall (λ bo, bo.1 = b0) (mutations (calls_since st stj)) ∧
  (∃ buf', buffer stj = Some buf' ∧
           currentBatch buf' = freshBatch buf (nextBatch st) ∧
           currentBatch buf' ≠ b0 ∧
           unitsSinceSplit buf' = 0%Z) ∧
  (∀ n b fresh,
     let b' := (ChangeBuffer_input n b fresh).1 in
     ((unitsSinceSplit b + n < splitThreshold b)%Z →
      unitsSinceSplit b' = (unitsSinceSplit b + n)%Z ∧
      currentBatch b' = currentBatch b) ∧
     ((splitThreshold b ≤ unitsSinceSplit b + n)%Z →
      unitsSinceSplit b' = 0%Z ∧
      currentBatch b' = freshBatch b fresh)).
Proof.
  intros Hready Hu HK Hj Hlt Hge Hok b0 stj. subst b0 stj.
  assert (Hprefix : ∀ i, i < j →
    (executeAll (take i calls) st).1 = Ok tt ∧
    ∀ k, 1 ≤ k ≤ length (take i calls) →
      (unitsSinceSplit buf + cumulative (take i calls) k < splitThreshold buf)%Z).
  { intros i Hi. split.
    - apply (executeAll_prefix_ok _ (drop i (take j calls))).
      replace (take i calls) with (take i (take j calls))
        by (rewrite take_take; f_equal; lia).
      now rewrite take_drop.
    - intros k Hk. rewrite length_take in Hk.
      rewrite cumulative_take by lia. rewrite Hu, HK.
      specialize (Hlt k ltac:(lia)). lia. }
  split; [|cut (∃ o, calls !! (j - 1) = Some o); [intros [o Ho]|]].
  - intros i Hi. destruct (Hprefix i Hi) as [Hoki Hlti].
    destruct (executeAll_below _ _ _ Hready Hlti Hoki) as (_ & Hb & _).
    unfold buffer. now rewrite Hb.
  - destruct (Hprefix (j - 1) ltac:(lia)) as [Hok1 Hlt1].
    destruct (executeAll_below _ _ _ Hready Hlt1 Hok1)
      as (He & Hb & Hn & new & Ht & Hm).
    replace j with (S (j - 1)) in Hok |- * by lia.
    rewrite (take_S_r _ _ _ Ho), executeAll_app in Hok |- *.
    destruct (executeAll (take (j - 1) calls) st) as [[[]|e] st1]; [|done].
    cbn [snd] in He, Hb, Hn, Ht.
    simpl in Hok |- *. unfold mbind, M_bind in Hok |- *.
    destruct (_doExecute (Some o) st1) as [[[]|e] st2] eqn:Hrun; [|done].
    assert (Hok2 : (_doExecute (Some o) st1).1 = Ok tt) by now rewrite Hrun.
    assert (Hready1 : ready st1
      (withUnits (unitsSinceSplit buf
                  + cumulative (take (j - 1) calls) (length (take (j - 1) calls)))
         buf)).
    { destruct Hready as (_ & Hd & Hbd & Hf). unfold ready.
      rewrite He, Hn. now repeat split. }
    destruct (doExecute_Ok_step _ _ _ Hready1 Hok2)
      as (He2 & Hb2 & Hn2 & new2 & Ht2 & Hm2).
    rewrite Hrun in He2, Hb2, Hn2, Ht2. cbn [snd] in He2, Hb2, Hn2, Ht2.
    rewrite ChangeBuffer_input_splits in Hb2.
    2:{ cbn [withUnits unitsSinceSplit splitThreshold].
        rewrite length_take, cumulative_take, Hu, HK by lia.
        replace ((j - 1) `min` length calls) with (j - 1) by lia.
        assert (Hs := cumulative_S _ _ _ Ho).
        replace (S (j - 1)) with j in Hs by lia. lia. }
    cbn [fst] in Hb2. unfold mret, M_ret. split; [|split].
    + unfold calls_since. cbn [snd]. rewrite Ht2, Ht, <- app_assoc.
      rewrite drop_app_length. unfold mutations in *.
      rewrite omap_app. now apply Forall_app.
    + eexists. unfold buffer. cbn [snd]. split; [exact Hb2|].
      cbn [withUnits currentBatch bufferDocument unitsSinceSplit].
      rewrite Hn. repeat split.
      destruct Hready as (_ & _ & _ & Hf). intros Heq.
      rewrite <- Heq in Hf. unfold freshBatch in Hf. simpl in Hf. lia.
    + intros n b fresh. split; intros H.
      * now rewrite ChangeBuffer_input_keeps.
      * now rewrite ChangeBuffer_input_splits.
  - apply lookup_lt_is_Some. lia.
Qed.

(** ** Which selection the command touches *)


















(** * Further properties of the command *)

(** ** How executions fail *)

Lemma doExecute_eq o st :
  _doExecute (Some o) st
  = let (res, st') :=
      _doExecute_changes (targetRange o st) (text_or_empty (text o))
        (length (text_or_empty (text o))) (resultPosition o)
        (record (CEnqueueEnter (document (editor st))) (afterRead o st)) in
    (res, commit (document (editor st)) st').
Proof.
  unfold _doExecute. simpl. unfold mbind at 1 2, M_bind at 1 2. simpl.
  now rewrite read_range.
Qed.

Lemma afterRead_buffer o st : _buffer (afterRead o st) = _buffer st.
Proof. unfold afterRead. now destruct (range o). Qed.

Lemma afterRead_docs o st : docs (afterRead o st) = docs st.
Proof. unfold afterRead. now destruct (range o). Qed.

Lemma afterRead_editor o st : editor (afterRead o st) = editor st.
Proof. unfold afterRead. now destruct (range o). Qed.

Lemma afterRead_nextBatch o st : nextBatch (afterRead o st) = nextBatch st.
Proof. unfold afterRead. now destruct (range o). Qed.

Lemma changes_no_buffer st rg t n rp :
  _buffer st = None →
  _doExecute_changes rg t n rp st = (Throw TypeError, st).
Proof.
  intros Hb. destruct rg as [r|]; [|reflexivity].
  unfold _doExecute_changes. simpl; unfold mbind, M_bind; simpl.
  assert (E : buffer_batch st = (Throw TypeError, st))
    by (unfold buffer_batch, mbind, M_bind, get; now rewrite Hb).
  destruct (isCollapsed r); simpl; now rewrite E.
Qed.

Lemma changes_invalid_eq st buf r t n rp :
  _buffer st = Some buf →
  validRange r (content (docs st (batchDocument (currentBatch buf)))) = false →
  _doExecute_changes (Some r) t n rp st
  = (Throw ModelError,
     record (if isCollapsed r then CWeakInsert (currentBatch buf) (start r) t
             else CRemove (currentBatch buf) r) st).
Proof.
  intros Hb Hv. unfold _doExecute_changes.
  simpl; unfold mbind, M_bind; simpl.
  destruct (isCollapsed r) eqn:Hc; simpl.
  - rewrite (buffer_batch_ready _ _ Hb).
    rewrite Batch_weakInsert_invalid; [done|].
    now rewrite <- validRange_collapsed.
  - rewrite (buffer_batch_ready _ _ Hb).
    now rewrite Batch_remove_invalid.
Qed.

Lemma doExecute_no_buffer st o :
  _buffer st = None →
  _doExecute (Some o) st = (Throw TypeError, aborted o [] st).
Proof.
  intros Hb. rewrite doExecute_eq, changes_no_buffer; [done|].
  simpl. now rewrite afterRead_buffer.
Qed.

Lemma doExecute_no_range st o :
  targetRange o st = None →
  _doExecute (Some o) st = (Throw TypeError, aborted o [] st).
Proof. intros Hr. rewrite doExecute_eq, Hr. reflexivity. Qed.

Lemma doExecute_invalid st buf o r :
  ready st buf →
  targetRange o st = Some r →
  validRange r (content (docs st (document (editor st)))) = false →
  _doExecute (Some o) st
  = (Throw ModelError,
     aborted o
       [if isCollapsed r then
          CWeakInsert (currentBatch buf) (start r) (text_or_empty (text o))
        else CRemove (currentBatch buf) r] st).
Proof.
  intros (Hb & Hd & Hbd & Hf) Hr Hv.
  rewrite doExecute_eq, Hr, (changes_invalid_eq _ buf); [done| |].
  - simpl. now rewrite afterRead_buffer.
  - simpl. now rewrite Hbd, afterRead_docs.
Qed.

Lemma records_fields cs : ∀ st,
  let st' := foldl (λ st c, record c st) st cs in
  editor st' = editor st ∧ _buffer st' = _buffer st ∧ docs st' = docs st ∧
  nextBatch st' = nextBatch st ∧ trace st' = trace st ++ cs.
Proof.
  induction cs as [|c cs IH]; intros st; simpl.
  - now rewrite app_nil_r.
  - destruct (IH (record c st)) as (-> & -> & -> & -> & ->). simpl.
    now rewrite <- app_assoc.
Qed.

Lemma aborted_editor o cs st : editor (aborted o cs st) = editor st.
Proof.
  unfold aborted, commit. simpl.
  destruct (records_fields cs
    (record (CEnqueueEnter (document (editor st))) (afterRead o st)))
    as (-> & _). simpl. apply afterRead_editor.
Qed.

Lemma aborted_buffer o cs st : _buffer (aborted o cs st) = _buffer st.
Proof.
  unfold aborted, commit. simpl.
  destruct (records_fields cs
    (record (CEnqueueEnter (document (editor st))) (afterRead o st)))
    as (_ & -> & _). simpl. apply afterRead_buffer.
Qed.

Lemma aborted_nextBatch o cs st : nextBatch (aborted o cs st) = nextBatch st.
Proof.
  unfold aborted, commit. simpl.
  destruct (records_fields cs
    (record (CEnqueueEnter (document (editor st))) (afterRead o st)))
    as (_ & _ & _ & -> & _). simpl. apply afterRead_nextBatch.
Qed.

Lemma aborted_calls o cs st :
  calls_since st (aborted o cs st)
  = match range o with
    | Some _ => []
    | None => [CGetFirstRange (document (editor st))]
    end
    ++ [CEnqueueEnter (document (editor st))] ++ cs
    ++ [CEnqueueExit (document (editor st))].
Proof.
  unfold calls_since, aborted, commit. simpl.
  destruct (records_fields cs
    (record (CEnqueueEnter (document (editor st))) (afterRead o st)))
    as (_ & _ & _ & _ & ->).
  unfold afterRead. destruct (range o); simpl;
    rewrite <- !app_assoc; apply drop_app_length.
Qed.

Lemma aborted_docs o cs st d' :
  content (docs (aborted o cs st) d') = content (docs st d') ∧
  selection (docs (aborted o cs st) d') = selection (docs st d').
Proof.
  unfold aborted, commit. simpl.
  destruct (records_fields cs
    (record (CEnqueueEnter (document (editor st))) (afterRead o st)))
    as (_ & _ & -> & _). simpl. rewrite afterRead_docs.
  destruct (decide (document (editor st) = d')) as [<-|Hd].
  - now rewrite fn_lookup_insert.
  - now rewrite fn_lookup_insert_ne.
Qed.

Lemma aborted_other o cs st d' :
  d' ≠ document (editor st) → docs (aborted o cs st) d' = docs st d'.
Proof.
  intros Hd. unfold aborted, commit. simpl.
  destruct (records_fields cs
    (record (CEnqueueEnter (document (editor st))) (afterRead o st)))
    as (_ & _ & -> & _). simpl. rewrite afterRead_docs.
  now rewrite fn_lookup_insert_ne.
Qed.

(** Every execution of a ready command ends in one of two ways. *)
Lemma doExecute_cases st buf o :
  ready st buf →
  (∃ r, targetRange o st = Some r ∧
        validRange r (content (docs st (document (editor st)))) = true ∧
        _doExecute (Some o) st = (Ok tt, executed o r buf st)) ∨
  (∃ e cs, _doExecute (Some o) st = (Throw e, aborted o cs st) ∧
           length cs ≤ 1 ∧
           Forall (λ c, is_input c = false ∧ is_collapse c = false) cs).
Proof.
  intros Hready.
  destruct (targetRange o st) as [r|] eqn:Hr.
  - destruct (validRange r (content (docs st (document (editor st)))))
      eqn:Hv.
    + left. exists r. split; [done|]. split; [done|].
      now apply doExecute_valid.
    + right. eexists _, _. split; [now apply (doExecute_invalid _ buf _ r)|].
      split; [simpl; lia|]. destruct (isCollapsed r); now repeat constructor.
  - right. exists TypeError, []. split; [now apply doExecute_no_range|].
    split; [simpl; lia|constructor].
Qed.

(** ** After [destroy] *)

Lemma destroy_buffer st : _buffer (destroy st).2 = None.
Proof.
  unfold destroy, mbind, M_bind, modify, get. simpl.
  now destruct (_buffer st) eqn:Hb.
Qed.

Lemma doExecute_default o st :
  _doExecute o st = _doExecute (Some (default emptyOptions o)) st.
Proof. now destruct o. Qed.

(** X3.  The execution that follows [destroy] throws a [TypeError],
    whatever its options: no removal, insertion, [collapse] or [input] is
    issued, the content and the selection of every document stay as they
    are, and the [buffer] accessor still answers [null]. *)
Theorem execute_after_destroy_throws st o :
  let st' := (destroy st).2 in
  let run := _doExecute o st' in
  run.1 = Throw TypeError ∧
  Forall (λ c, inside_scope c = false) (calls_since st' run.2) ∧
  (∀ d, content (docs run.2 d) = content (docs st' d) ∧
        selection (docs run.2 d) = selection (docs st' d)) ∧
  buffer run.2 = None.
Proof.
  intros st' run. subst st' run.
  rewrite doExecute_default, doExecute_no_buffer by apply destroy_buffer.
  cbn [fst snd]. split; [done|].
  rewrite aborted_calls. unfold buffer. rewrite aborted_buffer, destroy_buffer.
  repeat split; try apply aborted_docs.
  destruct (range _); repeat constructor.
Qed.

(** X4.  A second [destroy] throws a [TypeError]: the teardown of the base
    command is called again, the buffer is not, and the [buffer] accessor
    keeps answering [null]. *)
Theorem destroy_twice_throws st :
  let st' := (destroy st).2 in
  (destroy st').1 = Throw TypeError ∧
  calls_since st' (destroy st').2 = [CSuperDestroy] ∧
  buffer (destroy st').2 = None.
Proof.
  intros st'. subst st'.
  assert (Hb := destroy_buffer st).
  assert (E : destroy (destroy st).2
              = (Throw TypeError, record CSuperDestroy (destroy st).2)).
  { generalize dependent (destroy st).2. intros s Hs.
    unfold destroy, mbind, M_bind, modify, get. simpl. now rewrite Hs. }
  rewrite E. cbn [fst snd]. repeat split; [|done].
  unfold calls_since. simpl. apply drop_app_length.
Qed.

(** ** What an execution leaves alone *)

Lemma executed_other o r buf st d' :
  batchDocument (currentBatch buf) = document (editor st) →
  d' ≠ document (editor st) →
  docs (executed o r buf st) d'
  = match placement o r with
    | Some p =>
        if decide (d' = data_model (editor st)) then
          collapsedDoc p (docs st d')
        else docs st d'
    | None => docs st d'
    end.
Proof.
  intros Hbd Hd.
  unfold executed, commit, afterInput, afterPlacement, afterCollapse,
    afterInsert, afterRemove, afterRead.
  rewrite Hbd.
  destruct (decide (d' = data_model (editor st))) as [E|E];
    destruct (placement o r) as [p|], (isCollapsed r) eqn:Hc, (range o);
    simpl; rewrite <- ?E;
    repeat (rewrite fn_lookup_insert
            || rewrite fn_lookup_insert_ne by done); simpl;
    reflexivity.
Qed.

(** X5.  Whatever the options and however the execution ends, a ready
    command changes the content of no document but [editor.document], and
    shows no other document to observers; a document that is neither
    [editor.document] nor [editor.data.model] is left as it is. *)
Theorem execute_touches_editor_documents_only st buf o d' :
  ready st buf →
  d' ≠ document (editor st) →
  let run := _doExecute (Some o) st in
  content (docs run.2 d') = content (docs st d') ∧
  notified (docs run.2 d') = notified (docs st d') ∧
  (d' ≠ data_model (editor st) → docs run.2 d' = docs st d').
Proof.
  intros Hready Hd run. subst run.
  destruct (doExecute_cases _ _ o Hready)
    as [(r & _ & _ & E)|(e & cs & E & _)]; rewrite E; cbn [snd].
  - destruct Hready as (_ & _ & Hbd & _).
    rewrite executed_other by done.
    destruct (placement o r); [|done].
    destruct (decide (d' = data_model (editor st))); done.
  - now rewrite aborted_other.
Qed.

(** ** Inserting at a position *)

(** X6.  With a collapsed range — given or taken from the selection —
    nothing is removed: no removal is asked of the document, the text
    stands at the position between what preceded and what followed it,
    and the document grows by the length of the text. *)
Theorem execute_collapsed_inserts_only st buf o r :
  ready st buf →
  targetRange o st = Some r →
  isCollapsed r = true →
  validRange r (content (docs st (document (editor st)))) = true →
  let d := document (editor st) in
  let c := content (docs st d) in
  let t := text_or_empty (text o) in
  let run := _doExecute (Some o) st in
  run.1 = Ok tt ∧
  Forall (λ c, is_remove c = false) (calls_since st run.2) ∧
  content (docs run.2 d)
  = take (offset (start r)) c ++ t ++ drop (offset (start r)) c ∧
  length (content (docs run.2 d)) = length c + length t.
Proof.
  intros Hready Hr Hc Hv d c t run. subst d c t run.
  rewrite (doExecute_valid _ buf _ r) by done. cbn [fst snd].
  destruct Hready as (_ & _ & Hbd & _).
  rewrite executed_document, executed_calls by done.
  unfold executedDocument, executedCalls. cbn [content]. rewrite Hc.
  assert (He : end_ r = start r)
    by (now apply bool_decide_eq_true in Hc).
  rewrite He. repeat split.
  - destruct (range o), (placement o r); repeat constructor.
  - rewrite !length_app, length_take, length_drop.
    apply bool_decide_eq_true in Hv. lia.
Qed.

(** ** The change scope *)

Lemma emits_ret P {A} (a : A) : emits P (mret a).
Proof. intros st. exists []. now rewrite app_nil_r. Qed.

Lemma emits_get P : emits P get.
Proof. intros st. exists []. now rewrite app_nil_r. Qed.

Lemma emits_deref P {A} (o : option A) : emits P (deref o).
Proof. intros st. exists []. destruct o; now rewrite app_nil_r. Qed.

Lemma emits_bind P {A B} (m : M A) (k : A → M B) :
  emits P m → (∀ a, emits P (k a)) → emits P (m ≫= k).
Proof.
  intros Hm Hk st. unfold mbind, M_bind.
  destruct (Hm st) as (new & Ht & Hn).
  destruct (m st) as [[a|e] st']; [|now exists new].
  destruct (Hk a st') as (new' & Ht' & Hn').
  exists (new ++ new'). simpl in Ht. rewrite Ht', Ht, app_assoc.
  split; [done|]. now apply Forall_app.
Qed.

Lemma emits_record (P : Call → Prop) c : P c → emits P (modify (record c)).
Proof. intros Hc st. exists [c]. split; [done|]. now constructor. Qed.

Lemma emits_quiet P (f : St → St) :
  (∀ st, trace (f st) = trace st) → emits P (modify f).
Proof. intros Hf st. exists []. simpl. now rewrite Hf, app_nil_r. Qed.

Lemma emits_apply_to P d f : emits P (apply_to d f).
Proof.
  intros st. exists []. unfold apply_to.
  destruct (f (docs st d)); simpl; now rewrite app_nil_r.
Qed.

Lemma emits_changes rg t n rp :
  emits (λ c, inside_scope c = true) (_doExecute_changes rg t n rp).
Proof.
  unfold _doExecute_changes.
  assert (Hbatch : emits (λ c, inside_scope c = true) buffer_batch).
  { apply emits_bind; [apply emits_get|]. intros st.
    apply emits_bind; [apply emits_deref|]. intros b. apply emits_ret. }
  assert (Hcollapse : ∀ p,
    emits (λ c, inside_scope c = true)
      (st ← get ; Selection_collapse (data_model (editor st)) p)).
  { intros p. apply emits_bind; [apply emits_get|]. intros st.
    apply emits_bind; [now apply emits_record|]. intros _.
    now apply emits_quiet. }
  apply emits_bind; [apply emits_deref|]. intros r.
  apply emits_bind.
  { destruct (negb (isCollapsed r)); [|apply emits_ret].
    apply emits_bind; [exact Hbatch|]. intros b.
    apply emits_bind; [now apply emits_record|]. intros _.
    apply emits_apply_to. }
  intros _. apply emits_bind; [exact Hbatch|]. intros b.
  apply emits_bind.
  { apply emits_bind; [now apply emits_record|]. intros _.
    apply emits_apply_to. }
  intros _. apply emits_bind.
  { destruct rp as [p|]; [apply Hcollapse|].
    destruct (isCollapsed r); [apply Hcollapse|apply emits_ret]. }
  intros _. unfold buffer_input.
  apply emits_bind; [apply emits_get|]. intros st.
  apply emits_bind; [apply emits_deref|]. intros cb.
  apply emits_bind; [now apply emits_record|]. intros _.
  apply emits_quiet. intros st'.
  now destruct (ChangeBuffer_input _ cb (nextBatch st')).
Qed.

Lemma filter_not_exit_inside (l : list Call) :
  Forall (λ c, inside_scope c = true) l →
  filter (λ c, is_exit c = false) l = l.
Proof.
  induction 1 as [|c l Hc _ IH]; [done|].
  rewrite filter_cons, IH. now destruct c.
Qed.

(** X7.  Every execution calls [enqueueChanges] of [editor.document]
    exactly once; the removal, the insertion, [collapse] and [input] are
    only ever called inside that scope, and the first range of the
    selection is read before it, and only when no range was given.  An
    execution that succeeds leaves the scope as its last step. *)
Theorem execute_works_inside_one_scope st o :
  let d := document (editor st) in
  let run := _doExecute o st in
  let before :=
    match range (default emptyOptions o) with
    | Some _ => []
    | None => [CGetFirstRange d]
    end in
  ∃ body,
    Forall (λ c, inside_scope c = true) body ∧
    filter (λ c, is_exit c = false) (calls_since st run.2)
    = before ++ [CEnqueueEnter d] ++ body ∧
    (run.1 = Ok tt →
     calls_since st run.2
     = before ++ [CEnqueueEnter d] ++ body ++ [CEnqueueExit d]).
Proof.
  intros d run before. subst d run before.
  rewrite doExecute_default, doExecute_eq.
  set (o' := default emptyOptions o).
  set (st1 := record (CEnqueueEnter (document (editor st))) (afterRead o' st)).
  destruct (emits_changes (targetRange o' st) (text_or_empty (text o'))
              (length (text_or_empty (text o'))) (resultPosition o') st1)
    as (body & Ht & Hbody).
  destruct (_doExecute_changes _ _ _ _ st1) as [res st2].
  exists body. split; [done|].
  assert (E : calls_since st (res, commit (document (editor st)) st2).2
    = match range o' with
      | Some _ => []
      | None => [CGetFirstRange (document (editor st))]
      end
      ++ [CEnqueueEnter (document (editor st))] ++ body
      ++ [CEnqueueExit (document (editor st))]).
  { unfold calls_since, commit. cbn [snd trace record set_doc] in Ht |- *.
    rewrite Ht. unfold st1, afterRead.
    destruct (range o'); simpl; rewrite <- !app_assoc;
      apply drop_app_length. }
  rewrite E. split; [|done].
  rewrite !filter_app, (filter_not_exit_inside _ Hbody).
  destruct (range o'); simpl; now rewrite app_nil_r.
Qed.

(** ** Sequences of executions *)

Lemma ChangeBuffer_input_fresh n b fresh :
  fresh ≤ (ChangeBuffer_input n b fresh).2.
Proof.
  unfold ChangeBuffer_input.
  destruct (splitThreshold b <=? unitsSinceSplit b + n)%Z; simpl; lia.
Qed.

Lemma doExecute_keeps st buf K o :
  ready st buf →
  countsBelow K buf →
  let st' := (_doExecute (Some o) st).2 in
  ∃ buf', ready st' buf' ∧ countsBelow K buf' ∧
          editor st' = editor st ∧ nextBatch st ≤ nextBatch st'.
Proof.
  intros Hready [HK Hu] st'. subst st'.
  destruct (doExecute_cases _ _ o Hready)
    as [(r & _ & _ & E)|(e & cs & E & _)]; rewrite E; cbn [snd].
  - exists (ChangeBuffer_input (unitsOf o) buf (nextBatch st)).1.
    destruct (ChangeBuffer_input_ready (unitsOf o) _ _ Hready)
      as (_ & Hd & Hbd & Hf). simpl in Hd, Hbd, Hf.
    destruct (ChangeBuffer_input_below (unitsOf o) buf (nextBatch st))
      as [HK' Hu']; [unfold unitsOf; lia|lia|].
    unfold ready, countsBelow.
    rewrite executed_editor, executed_buffer, executed_nextBatch.
    repeat split; try done; try lia.
    apply ChangeBuffer_input_fresh.
  - exists buf. destruct Hready as (Hb & Hd & Hbd & Hf).
    unfold ready, countsBelow.
    rewrite aborted_editor, aborted_buffer, aborted_nextBatch.
    repeat split; try done; lia.
Qed.

(** X8.  A ready command whose buffer has its counter within [0, K), as
    after construction with a positive [undoStepSize] [K], keeps that
    through any sequence of executions, whether they succeed or throw: it
    still owns a buffer with threshold [K] and a counter within [0, K),
    whose batch was produced for [editor.document] before the next batch
    identity, which never goes back. *)
Theorem executions_keep_buffer_within_threshold calls : ∀ st buf K,
  ready st buf →
  countsBelow K buf →
  let st' := (executeAll calls st).2 in
  ∃ buf', ready st' buf' ∧ countsBelow K buf' ∧
          editor st' = editor st ∧ nextBatch st ≤ nextBatch st'.
Proof.
  induction calls as [|o calls IH]; intros st buf K Hready Hcb; simpl.
  - exists buf. split; [done|]. split; [done|]. split; [done|lia].
  - assert (H1 := doExecute_keeps _ _ _ o Hready Hcb).
    unfold mbind, M_bind.
    destruct (_doExecute (Some o) st) as [[[]|e] st1]; cbn [snd] in *;
      destruct H1 as (buf1 & Hready1 & Hcb1 & He1 & Hn1).
    + destruct (IH st1 buf1 K Hready1 Hcb1) as (buf' & ? & ? & He & Hn).
      exists buf'. split; [done|]. split; [done|].
      split; [congruence|lia].
    + now exists buf1.
Qed.

Lemma typing_content (c T : Text) (p : nat) :
  p ≤ length c →
  take (p + length T) (take p c ++ T ++ drop p c) = take p c ++ T ∧
  drop (p + length T) (take p c ++ T ++ drop p c) = drop p c.
Proof.
  intros Hp.
  assert (Hl : p + length T = length (take p c ++ T))
    by (rewrite length_app, length_take; lia).
  rewrite (assoc_L (++)).
  now rewrite (take_app_length' _ _ _ Hl), (drop_app_length' _ _ _ Hl).
Qed.

Lemma typing_steps Ts : ∀ st buf P,
  ready st buf →
  document (editor st) = data_model (editor st) →
  getFirstRange (selection (docs st (document (editor st))))
  = Some (collapsedRange P) →
  validPosition P (content (docs st (document (editor st)))) = true →
  let d := document (editor st) in
  let c := content (docs st d) in
  let run := executeAll (typed <$> Ts) st in
  run.1 = Ok tt ∧
  content (docs run.2 d)
  = take (offset P) c ++ concat Ts ++ drop (offset P) c ∧
  getFirstRange (selection (docs run.2 d))
  = Some (collapsedRange (getShiftedBy P (length (concat Ts)))).
Proof.
  induction Ts as [|T Ts IH]; intros st buf P Hready Hdm Hsel Hv d c run;
    subst d c run.
  - simpl. rewrite take_drop, getShiftedBy_0. done.
  - cbn [fmap list_fmap executeAll]. unfold mbind, M_bind.
    assert (Hc : isCollapsed (collapsedRange P) = true)
      by (now apply bool_decide_eq_true).
    assert (Hv' : validRange (collapsedRange P)
                    (content (docs st (document (editor st)))) = true)
      by (now rewrite validRange_collapsed).
    assert (Hr : targetRange (typed T) st = Some (collapsedRange P)) by done.
    assert (E := doExecute_valid _ _ _ _ Hready Hr Hv').
    assert (Hok : (_doExecute (Some (typed T)) st).1 = Ok tt)
      by now rewrite E.
    assert (Hready1 := doExecute_ready _ _ _ Hready Hok).
    rewrite E in Hready1 |- *. cbn [snd] in Hready1.
    destruct Hready as (_ & _ & Hbd & _).
    assert (Hdoc := executed_document (typed T) _ _ _ Hbd Hv').
    assert (Hed := executed_editor (typed T) (collapsedRange P) buf st).
    unfold executedDocument, placement in Hdoc.
    cbn [typed resultPosition text text_or_empty default collapsedRange
         start end_] in Hdoc.
    rewrite Hc in Hdoc.
    destruct (decide (data_model (editor st) = document (editor st)));
      [|congruence].
    apply bool_decide_eq_true in Hv.
    destruct (typing_content (content (docs st (document (editor st)))) T
                (offset P) Hv) as [Htake Hdrop].
    destruct (IH (executed (typed T) (collapsedRange P) buf st) _
                (getShiftedBy P (length T)) Hready1) as (Hok' & Hc' & Hs').
    + now rewrite Hed.
    + rewrite Hed, Hdoc. reflexivity.
    + rewrite Hed, Hdoc. apply bool_decide_eq_true. simpl.
      rewrite !length_app, length_take, length_drop. lia.
    + rewrite Hed in Hc', Hs'. rewrite Hdoc in Hc'. cbn [content] in Hc'.
      simpl in Hc'. rewrite Htake, Hdrop in Hc'.
      split; [done|]. split.
      * rewrite Hc'. simpl. now rewrite <- !app_assoc.
      * rewrite Hs'. do 2 f_equal. unfold getShiftedBy. simpl.
        rewrite length_app. f_equal. lia.
Qed.

(** X9.  Typing at the cursor composes.  When [editor.data.model] is
    [editor.document] and its selection is collapsed at a position of the
    document, executing with one text after the other, without range and
    without result position, succeeds each time: each execution starts
    where the one before left the cursor, so that in the end the texts
    stand in their order at the first position and the cursor is collapsed
    behind them, exactly as after one execution with their
    concatenation. *)
Theorem typing_at_cursor_composes st buf P Ts :
  ready st buf →
  document (editor st) = data_model (editor st) →
  getFirstRange (selection (docs st (document (editor st))))
  = Some (collapsedRange P) →
  validPosition P (content (docs st (document (editor st)))) = true →
  let d := document (editor st) in
  let c := content (docs st d) in
  let run := executeAll (typed <$> Ts) st in
  let once := _doExecute (Some (typed (concat Ts))) st in
  run.1 = Ok tt ∧
  content (docs run.2 d)
  = take (offset P) c ++ concat Ts ++ drop (offset P) c ∧
  getFirstRange (selection (docs run.2 d))
  = Some (collapsedRange (getShiftedBy P (length (concat Ts)))) ∧
  content (docs once.2 d) = content (docs run.2 d) ∧
  selection (docs once.2 d)
  = collapsedAt (getShiftedBy P (length (concat Ts))).
Proof.
  intros Hready Hdm Hsel Hv d c run once.
  destruct (typing_steps Ts st buf P Hready Hdm Hsel Hv) as (Hok & Hc & Hs).
  destruct (typing_steps [concat Ts] st buf P Hready Hdm Hsel Hv)
    as (_ & Hc1 & _).
  subst d c run once. repeat split; try done.
  - rewrite Hc. simpl in Hc1. rewrite app_nil_r in Hc1. rewrite <- Hc1.
    unfold mbind, M_bind.
    now destruct (_doExecute (Some (typed (concat Ts))) st) as [[[]|e] st1].
  - assert (Hc' : isCollapsed (collapsedRange P) = true)
      by (now apply bool_decide_eq_true).
    assert (Hv' : validRange (collapsedRange P)
                    (content (docs st (document (editor st)))) = true)
      by (now rewrite validRange_collapsed).
    rewrite (doExecute_valid _ buf _ (collapsedRange P)) by done.
    cbn [snd]. destruct Hready as (_ & _ & Hbd & _).
    rewrite executed_document by done.
    unfold executedDocument, placement. simpl. rewrite Hc'.
    destruct (decide (data_model (editor st) = document (editor st)));
      [done|congruence].
Qed.

Lemma restore_content (c T : Text) (s e : nat) :
  s ≤ e → e ≤ length c →
  let c1 := take s c ++ T ++ drop e c in
  take s c1 ++ take (e - s) (drop s c) ++ drop (s + length T) c1 = c.
Proof.
  intros Hs He c1. subst c1.
  assert (Hl : s = length (take s c)) by (rewrite length_take; lia).
  assert (Hl' : s + length T = length (take s c ++ T))
    by (rewrite length_app, length_take; lia).
  rewrite (take_app_length' _ _ _ Hl).
  rewrite (assoc_L (++) (take s c) T), (drop_app_length' _ _ _ Hl').
  replace (drop e c) with (drop (e - s) (drop s c))
    by (rewrite drop_drop; f_equal; lia).
  now rewrite !take_drop.
Qed.

(** X10.  Replacing and replacing back restores the document.  After a
    range [R] of the document was replaced by a text [T], executing with
    the range that [T] now occupies and the text that [R] held succeeds and
    gives the document the content it had at first. *)
Theorem replace_then_restore st buf R T :
  ready st buf →
  validRange R (content (docs st (document (editor st)))) = true →
  let d := document (editor st) in
  let c := content (docs st d) in
  let held :=
    take (offset (end_ R) - offset (start R)) (drop (offset (start R)) c) in
  let there :=
    {| text := Some T; range := Some R; resultPosition := None |} in
  let back :=
    {| text := Some held;
       range := Some {| start := start R;
                        end_ := getShiftedBy (start R) (length T) |};
       resultPosition := None |} in
  let run := executeAll [there; back] st in
  run.1 = Ok tt ∧ content (docs run.2 d) = c.
Proof.
  intros Hready Hv d c held there back run. subst d c run.
  assert (Hv' := Hv). apply bool_decide_eq_true in Hv' as [Hs He].
  cbn [executeAll]. unfold mbind, M_bind.
  assert (E := doExecute_valid st buf there R Hready eq_refl Hv).
  assert (Hok : (_doExecute (Some there) st).1 = Ok tt) by now rewrite E.
  assert (Hready1 := doExecute_ready _ _ _ Hready Hok).
  rewrite E in Hready1 |- *. cbn [snd] in Hready1.
  assert (Hbd : batchDocument (currentBatch buf) = document (editor st))
    by apply Hready.
  assert (Hdoc := executed_document there _ _ _ Hbd Hv).
  assert (Hed := executed_editor there R buf st).
  set (st1 := executed there R buf st) in *.
  set (R' := {| start := start R;
                end_ := getShiftedBy (start R) (length T) |}).
  assert (Hc1 : content (docs st1 (document (editor st1)))
                = take (offset (start R))
                    (content (docs st (document (editor st))))
                  ++ T ++ drop (offset (end_ R))
                            (content (docs st (document (editor st)))))
    by (now rewrite Hed, Hdoc).
  assert (Hv1 : validRange R' (content (docs st1 (document (editor st1))))
                = true).
  { rewrite Hc1. apply bool_decide_eq_true. simpl.
    rewrite !length_app, length_take, length_drop. lia. }
  rewrite (doExecute_valid st1 _ back R' Hready1 eq_refl Hv1).
  unfold mret, M_ret. cbn [fst snd]. split; [done|].
  assert (Hbd1 := proj1 (proj2 (proj2 Hready1))).
  assert (Hdoc2 := executed_document back R' _ st1 Hbd1 Hv1).
  rewrite Hed in Hdoc2 at 1. rewrite Hdoc2.
  unfold executedDocument. cbn [content]. rewrite Hc1.
  cbn [back text text_or_empty default R' start end_ getShiftedBy offset].
  now apply restore_content.
Qed.

End InputCommand.

(** ** The properties at sample inputs *)

Arguments txt s%_string_scope.

Lemma execute_replaces_range_in_one_scope_witness :
  content
    (docs (_doExecute noLive
             (Some {| text := Some (txt "XY");
                      range := Some (rangeOf 2 4);
                      resultPosition := None |})
             (sampleCommand sameModel)).2 0)
  = txt "heXYo world".
Proof.
  refine (proj1 (proj2
    (execute_replaces_range_in_one_scope noLive (sampleCommand sameModel)
       sampleBuffer (rangeOf 2 4) (txt "XY") None _ _ _))).
  - unfold ready. vm_compute. repeat split. lia.
  - reflexivity.
  - reflexivity.
Defined.

Lemma execute_collapsed_shifts_selection_witness :
  selection
    (docs (_doExecute noLive
             (Some {| text := Some (txt "ab");
                      range := Some (rangeOf 3 3);
                      resultPosition := None |})
             (sampleCommand otherModel)).2 1)
  = {| ranges := [rangeOf 5 5] |}.
Proof.
  refine (proj2
    (execute_collapsed_shifts_selection noLive (sampleCommand otherModel)
       sampleBuffer (rangeOf 3 3) (txt "ab") _ _ _)).
  - unfold ready. vm_compute. repeat split. lia.
  - reflexivity.
  - reflexivity.
Defined.

Lemma execute_result_position_witness :
  selection
    (docs (_doExecute noLive
             (Some {| text := Some (txt "Z");
                      range := Some (rangeOf 1 3);
                      resultPosition := Some {| offset := 7 |} |})
             (sampleCommand sameModel)).2 0)
  = {| ranges := [rangeOf 7 7] |}.
Proof.
  refine (proj2
    (execute_result_position noLive (sampleCommand sameModel) sampleBuffer
       {| text := Some (txt "Z");
          range := Some (rangeOf 1 3);
          resultPosition := Some {| offset := 7 |} |}
       (rangeOf 1 3) {| offset := 7 |} _ _ _ _)).
  - unfold ready. vm_compute. repeat split. lia.
  - reflexivity.
  - reflexivity.
  - reflexivity.
Defined.

Lemma batch_is_kept_until_threshold_witness :
  currentBatch <$> buffer (executeAll noLive (take 3 typing)
                             (sampleCommand sameModel)).2
  = Some {| batchDocument := 0; batchId := 0 |} ∧
  currentBatch <$> buffer (executeAll noLive (take 4 typing)
                             (sampleCommand sameModel)).2
  = Some {| batchDocument := 0; batchId := 1 |}.
Proof.
  assert (H := batch_is_kept_until_threshold noLive (sampleCommand sameModel)
                 sampleBuffer 5 typing 4).
  destruct H as (Hsame & _ & (buf' & Hb & Hfresh & _) & _).
  - unfold ready. vm_compute. repeat split. lia.
  - reflexivity.
  - reflexivity.
  - simpl. lia.
  - intros i Hi.
    assert (Hc : i = 1 ∨ i = 2 ∨ i = 3) by lia.
    destruct Hc as [-> | [-> | ->]]; vm_compute; reflexivity.
  - vm_compute. discriminate.
  - reflexivity.
  - split.
    + apply (Hsame 3). lia.
    + rewrite Hb. simpl. now rewrite Hfresh.
Defined.

Lemma execute_reports_input_once_after_mutations_witness :
  (_doExecute noLive
     (Some {| text := Some (txt "XY");
              range := Some (rangeOf 2 4);
              resultPosition := None |})
     (sampleCommand sameModel)).1 = Ok tt.
Proof.
  refine (proj1
    (execute_reports_input_once_after_mutations noLive
       (sampleCommand sameModel) sampleBuffer
       {| text := Some (txt "XY");
          range := Some (rangeOf 2 4);
          resultPosition := None |}
       (rangeOf 2 4) _ _ _)).
  - unfold ready. vm_compute. repeat split. lia.
  - reflexivity.
  - reflexivity.
Defined.

(** C6 as it is stated fails for a buffer with a zero threshold: the
    zero units reach the threshold, and the buffer opens another batch. *)
Lemma empty_input_splits_at_zero_threshold :
  ¬ empty_input_is_noop noLive zeroThresholdCommand {| offset := 5 |}.
Proof.
  unfold empty_input_is_noop. intros (_ & _ & _ & H).
  vm_compute in H. discriminate H.
Qed.

Lemma execute_empty_input_is_noop_edit_witness :
  content
    (docs (_doExecute noLive
             (Some {| text := Some [];
                      range := Some (rangeOf 5 5);
                      resultPosition := None |})
             zeroThresholdCommand).2 0)
  = txt "hello world" ∧
  buffer
    (_doExecute noLive
       (Some {| text := Some [];
                range := Some (rangeOf 5 5);
                resultPosition := None |})
       (sampleCommand sameModel)).2
  = Some sampleBuffer.
Proof.
  split.
  - refine (proj1 (proj2
      (execute_empty_input_is_noop_edit noLive zeroThresholdCommand
         (ChangeBuffer_new 0 0 0).1 {| offset := 5 |} _ _))).
    + unfold ready. vm_compute. repeat split. lia.
    + reflexivity.
  - refine (proj1 (proj2 (proj2 (proj2 (proj2 (proj2
      (execute_empty_input_is_noop_edit noLive (sampleCommand sameModel)
         sampleBuffer {| offset := 5 |} _ _))))) _)).
    + unfold ready. vm_compute. repeat split. lia.
    + reflexivity.
    + reflexivity.
Defined.

Lemma execute_defaults_witness :
  content (docs (_doExecute noLive None (sampleCommand sameModel)).2 0)
  = txt "hello world" ∧
  filter (λ c, is_input c = true)
    (calls_since (sampleCommand sameModel)
       (_doExecute noLive None (sampleCommand sameModel)).2)
  = [CInput 0] ∧
  content
    (docs (_doExecute noLive
             (Some {| text := Some (txt "XY"); range := None;
                      resultPosition := None |})
             (sampleCommand sameModel)).2 0)
  = txt "helloXY world".
Proof.
  assert (H := execute_defaults noLive (sampleCommand sameModel) sampleBuffer
                 (rangeOf 5 5)).
  destruct H as (Htext & Hrange & _).
  - unfold ready. vm_compute. repeat split. lia.
  - reflexivity.
  - destruct (Htext None None eq_refl) as (_ & _ & Hin & Hc).
    destruct (Hrange (txt "XY") None eq_refl) as (_ & _ & _ & Hc').
    split; [exact Hc|]. split; [exact Hin|exact Hc'].
Defined.

Lemma destroy_releases_buffer_witness :
  buffer (destroy (sampleCommand sameModel)).2 = None.
Proof.
  refine (proj2 (proj2
    (destroy_releases_buffer (sampleCommand sameModel) sampleBuffer _))).
  reflexivity.
Defined.

Lemma execute_noncollapsed_places_no_selection_witness :
  selection
    (docs (_doExecute noLive
             (Some {| text := Some (txt "XY");
                      range := Some (rangeOf 2 4);
                      resultPosition := None |})
             (sampleCommand sameModel)).2 0)
  = {| ranges := [rangeOf 5 5] |}.
Proof.
  refine (proj2 (proj2
    (execute_noncollapsed_places_no_selection noLive (sampleCommand sameModel)
       sampleBuffer
       {| text := Some (txt "XY");
          range := Some (rangeOf 2 4);
          resultPosition := None |}
       (rangeOf 2 4) _ _ _ _ _))).
  - unfold ready. vm_compute. repeat split. lia.
  - reflexivity.
  - reflexivity.
  - reflexivity.
  - reflexivity.
Defined.


(** ** The further properties at sample inputs *)

Lemma execute_touches_editor_documents_only_witness :
  content
    (docs (_doExecute noLive
             (Some {| text := Some (txt "XY");
                      range := Some (rangeOf 2 4);
                      resultPosition := Some {| offset := 1 |} |})
             (sampleCommand otherModel)).2 1)
  = txt "hello world".
Proof.
  refine (proj1
    (execute_touches_editor_documents_only noLive (sampleCommand otherModel)
       sampleBuffer
       {| text := Some (txt "XY");
          range := Some (rangeOf 2 4);
          resultPosition := Some {| offset := 1 |} |} 1 _ _)).
  - unfold ready. vm_compute. repeat split. lia.
  - simpl. lia.
Defined.

Lemma execute_collapsed_inserts_only_witness :
  length
    (content
       (docs (_doExecute noLive (Some (typed (txt "ab")))
                (sampleCommand sameModel)).2 0))
  = 13.
Proof.
  refine (proj2 (proj2 (proj2
    (execute_collapsed_inserts_only noLive (sampleCommand sameModel)
       sampleBuffer (typed (txt "ab")) (rangeOf 5 5) _ _ _ _)))).
  - unfold ready. vm_compute. repeat split. lia.
  - reflexivity.
  - reflexivity.
  - reflexivity.
Defined.

Lemma executions_keep_buffer_within_threshold_witness :
  ∃ buf',
    ready (executeAll noLive typing (sampleCommand sameModel)).2 buf' ∧
    countsBelow 5 buf' ∧
    editor (executeAll noLive typing (sampleCommand sameModel)).2 = sameModel ∧
    1 ≤ nextBatch (executeAll noLive typing (sampleCommand sameModel)).2.
Proof.
  refine (executions_keep_buffer_within_threshold noLive typing
            (sampleCommand sameModel) sampleBuffer 5 _ _).
  - unfold ready. vm_compute. repeat split. lia.
  - unfold countsBelow. simpl. lia.
Defined.

Lemma typing_at_cursor_composes_witness :
  content
    (docs (executeAll noLive [typed (txt "a"); typed (txt "b")]
             (sampleCommand sameModel)).2 0)
  = txt "helloab world".
Proof.
  refine (proj1 (proj2
    (typing_at_cursor_composes noLive (sampleCommand sameModel) sampleBuffer
       {| offset := 5 |} [txt "a"; txt "b"] _ _ _ _))).
  - unfold ready. vm_compute. repeat split. lia.
  - reflexivity.
  - reflexivity.
  - reflexivity.
Defined.

Lemma replace_then_restore_witness :
  content
    (docs (executeAll noLive
             [ {| text := Some (txt "XYZ"); range := Some (rangeOf 2 4);
                  resultPosition := None |};
               {| text := Some (txt "ll"); range := Some (rangeOf 2 5);
                  resultPosition := None |} ]
             (sampleCommand sameModel)).2 0)
  = txt "hello world".
Proof.
  refine (proj2
    (replace_then_restore noLive (sampleCommand sameModel) sampleBuffer
       (rangeOf 2 4) (txt "XYZ") _ _)).
  - unfold ready. vm_compute. repeat split. lia.
  - reflexivity.
Defined.

Lemma execute_works_inside_one_scope_witness :
  ∃ body,
    calls_since (sampleCommand sameModel)
      (_doExecute noLive (Some (typed (txt "ab"))) (sampleCommand sameModel)).2
    = [CGetFirstRange 0; CEnqueueEnter 0] ++ body ++ [CEnqueueExit 0] ∧
    Forall (λ c, inside_scope c = true) body.
Proof.
  destruct (execute_works_inside_one_scope noLive (sampleCommand sameModel)
              (Some (typed (txt "ab")))) as (body & Hbody & _ & Hok).
  exists body. split; [|exact Hbody].
  apply Hok. reflexivity.
Defined.
